(** * F1 telemetry viewer: the replay-frame pipeline of [F1DataProcessor]

    A shallow embedding of [backend/f1_data_processor.py] (with the constants of
    [backend/config.py]) and the properties of its frame synthesis, track
    normalisation, frame queries and tyre-strategy view.

    Conventions of the embedding.
    - numpy/Python floats are exact rationals ([Q]); a value that numpy would
      produce as [inf] or [nan] is [None] in an [option Q].  Rounding error of
      binary floating point is therefore not part of the model, and the
      provider's tables are taken to hold finite numbers.
    - Python dictionaries used as maps are [gmap]s; the order of their keys is
      not modelled.
    - An exception is the [Raise] outcome of [result]; the methods that mutate
      [self] are functions from a [Processor] to an outcome and the [Processor]
      left behind. *)

From stdpp Require Import gmap strings list sorting.
From Stdlib Require Import Ascii QArith Qround Qminmax Lqa.

(** ** Numbers *)

Module Num.

(** [a < b] on floats. *)
Definition Qltb (a b : Q) : bool := negb (Qle_bool b a).

(** Truth value of a number ([if rotation:]). *)
Definition nonzero (q : Q) : bool := negb (Qeq_bool q 0).

(** Nearest integer, ties to the even one: what [round] does on the exact
    value of its argument. *)
Definition round_half_even (q : Q) : Z :=
  let f := Qfloor q in
  match (q - inject_Z f ?= 1 # 2)%Q with
  | Lt => f
  | Gt => (f + 1)%Z
  | Eq => if Z.even f then f else (f + 1)%Z
  end.

(** [round(q, ndigits)]. *)
Definition py_round (q : Q) (ndigits : nat) : Q :=
  let m := inject_Z (10 ^ Z.of_nat ndigits) in
  (inject_Z (round_half_even (q * m)) / m)%Q.

(** [a.min()] and [a.max()] of a one-dimensional array; [None] stands for the
    [ValueError] numpy raises on an empty array. *)
Definition np_min (a : list Q) : option Q :=
  match a with
  | [] => None
  | x :: r => Some (foldl Qmin x r)
  end.

Definition np_max (a : list Q) : option Q :=
  match a with
  | [] => None
  | x :: r => Some (foldl Qmax x r)
  end.

(** [n / d] on numpy floats: division by zero gives [inf] (here [None]) and
    does not raise. *)
Definition np_div (n d : Q) : option Q :=
  if Qeq_bool d 0 then None else Some (n / d)%Q.

(** [np.arange(start, stop, step)] for a non-zero [step]:
    [ceil((stop - start) / step)] values [start + i * step]. *)
Definition arange_len (start stop step : Q) : nat :=
  Z.to_nat (Qceiling ((stop - start) / step)).

Definition np_arange (start stop step : Q) : list Q :=
  map (λ i : nat, (start + inject_Z (Z.of_nat i) * step)%Q)
      (seq 0 (arange_len start stop step)).

(** The loop of numpy's [binsearch<side = left>] for one key; [fuel] bounds
    the number of iterations. *)
Fixpoint binsearch_left (fuel : nat) (arr : list Q) (key : Q)
    (min_idx max_idx : nat) : nat :=
  match fuel with
  | O => min_idx
  | S fuel' =>
      if (min_idx <? max_idx)%nat then
        let mid_idx := (min_idx + (max_idx - min_idx) / 2)%nat in
        match arr !! mid_idx with
        | Some mid_val =>
            if Qltb mid_val key
            then binsearch_left fuel' arr key (mid_idx + 1) max_idx
            else binsearch_left fuel' arr key min_idx mid_idx
        | None => min_idx
        end
      else min_idx
  end.

(** [np.searchsorted(a, v)] (default [side='left']). *)
Definition searchsorted (a : list Q) (v : Q) : nat :=
  binsearch_left (length a) a v 0 (length a).

(** The two lines shared by the driver and the weather lookup:
    [idx = np.searchsorted(times, t); idx = min(idx, len(times) - 1)].
    Both callers guarantee a non-empty [times]. *)
Definition lookup_index (times : list Q) (t : Q) : nat :=
  Nat.min (searchsorted times t) (length times - 1).

End Num.

(** ** Outcomes and the processor state *)

(** The exceptions the pipeline can meet. [ProviderError] stands for any
    exception raised inside the telemetry provider (FastF1). *)
Inductive exn :=
  TypeError | ValueError | ZeroDivisionError | AttributeError | ProviderError.

Inductive result (A : Type) :=
| Ok (a : A)
| Raise (e : exn).
Arguments Ok {A} a.
Arguments Raise {A} e.

Definition is_ok {A} (r : result A) : bool :=
  match r with Ok _ => true | Raise _ => false end.

(** ** Provider tables *)

(** One row of a lap's telemetry table. [Brake] is the provider's boolean
    column seen through [float(...)]. *)
Record TelRow := {
  SessionTime : Q;   (* tel["SessionTime"].dt.total_seconds() *)
  X : Q;
  Y : Q;
  Distance : Q;
  Speed : Q;
  nGear : Z;
  Throttle : Q;
  Brake : Q;
  DRS : Z
}.

(** One row of [session.laps]. [LapNumber] is an integral-valued float in the
    provider's table, so [int(lap['LapNumber'])] is the identity on it;
    [Compound] is the text [str(lap['Compound'])] yields. [get_telemetry] is
    the outcome of [lap.get_telemetry()]. *)
Record Lap := {
  DriverNumber : string;
  Driver : string;
  LapNumber : Z;
  Compound : string;
  get_telemetry : result (list TelRow)
}.

Record WeatherRow := {
  Time : Q;          (* weather_df["Time"].dt.total_seconds() *)
  TrackTemp : Q;
  AirTemp : Q;
  Humidity : Q;
  WindSpeed : Q;
  Rainfall : bool
}.

(** [circuit_info.rotation] in degrees with the values of [np.cos] and
    [np.sin] at [np.deg2rad(rotation)]. *)
Record Rotation := {
  rotation : Q;
  cos_rad : Q;
  sin_rad : Q
}.

(** A loaded session as the processor reads it.
    - [get_driver num] is [session.get_driver(num)["Abbreviation"]], which is
      taken not to raise for a number of [session.drivers];
    - [driver_color_mapping] is the outcome of
      [fastf1.plotting.get_driver_color_mapping(session)];
    - [fastest_lap_telemetry] is the outcome of
      [session.laps.pick_fastest().get_telemetry()];
    - [circuit_info] is the outcome of [session.get_circuit_info()], [None]
      inside it when the object has no [rotation] attribute;
    - [weather_data] is [None] when the attribute is missing or [None]. *)
Record Session := {
  drivers : list string;
  get_driver : string → string;
  laps : list Lap;
  driver_color_mapping : result (list (string * string));
  fastest_lap_telemetry : result (list TelRow);
  circuit_info : result (option Rotation);
  weather_data : option (list WeatherRow)
}.

(** [session.laps.pick_drivers(driver_no)]. *)
Definition pick_drivers (s : Session) (driver_no : string) : list Lap :=
  filter (λ lap, DriverNumber lap = driver_no) (laps s).

(** ** Derived state *)

Record Color := {
  hex : string;
  rgb : list Z
}.

(** [self.track_coords]: the full dictionary built from the fastest lap, or
    the fallback [{'x': [], 'y': []}]. The constant entries
    ['width': 1000, 'height': 1000] are [track_width] and [track_height]. *)
Inductive TrackCoords :=
| TrackGeometry (x y : list (option Q)) (distance : list Q)
    (scale : option Q) (offset_x offset_y : Q)
| TrackEmpty.

Definition track_width : Z := 1000.
Definition track_height : Z := 1000.

Record DriverSnapshot := {
  ds_x : option Q;
  ds_y : option Q;
  ds_dist : Q;
  ds_speed : Q;
  ds_gear : Z;
  ds_throttle : Q;
  ds_brake : Q;
  ds_drs : Z;
  ds_lap : Z;
  ds_tyre : string
}.

Record WeatherSnapshot := {
  track_temp : Q;
  air_temp : Q;
  humidity : Q;
  wind_speed : Q;
  rainfall : bool
}.

(** A frame; [f_weather] is [None] while the frame has no ['weather'] key. *)
Record Frame := {
  f_t : Q;
  f_drivers : gmap string DriverSnapshot;
  f_weather : option WeatherSnapshot
}.

(** [self.session]: nothing yet, the object [fastf1.get_session] returned
    whose [load] did not complete, or a loaded session. *)
Inductive SessionRef :=
| NoSession
| Unloaded
| Loaded (s : Session).

(** The fields of [F1DataProcessor]. *)
Record Processor := {
  session : SessionRef;
  frames : list Frame;
  driver_colors : gmap string Color;
  track_coords : TrackCoords
}.

(** [F1DataProcessor.__init__]. *)
Definition init : Processor :=
  {| session := NoSession; frames := []; driver_colors := ∅;
     track_coords := TrackEmpty |}.

Definition set_session (r : SessionRef) (p : Processor) : Processor :=
  {| session := r; frames := frames p; driver_colors := driver_colors p;
     track_coords := track_coords p |}.

Definition set_frames (fs : list Frame) (p : Processor) : Processor :=
  {| session := session p; frames := fs; driver_colors := driver_colors p;
     track_coords := track_coords p |}.

Definition set_driver_colors (c : gmap string Color) (p : Processor) : Processor :=
  {| session := session p; frames := frames p; driver_colors := c;
     track_coords := track_coords p |}.

Definition set_track_coords (t : TrackCoords) (p : Processor) : Processor :=
  {| session := session p; frames := frames p; driver_colors := driver_colors p;
     track_coords := t |}.

(** A method of the processor: an outcome and the processor it leaves. *)
Definition M (A : Type) : Type := Processor → result A * Processor.

Definition ret {A} (a : A) : M A := λ p, (Ok a, p).
Definition raise {A} (e : exn) : M A := λ p, (Raise e, p).
Definition bind {A B} (m : M A) (k : A → M B) : M B :=
  λ p, match m p with
       | (Ok a, p') => k a p'
       | (Raise e, p') => (Raise e, p')
       end.
Definition lift {A} (r : result A) : M A := λ p, (r, p).
Definition modify (f : Processor → Processor) : M unit := λ p, (Ok tt, f p).

Declare Scope proc_scope.
Delimit Scope proc_scope with proc.
Notation "x <- m ;; k" := (bind m (λ x, k))
  (at level 100, m at next level, right associativity) : proc_scope.
Notation "m ;;; k" := (bind m (λ _, k))
  (at level 100, right associativity) : proc_scope.

(** ** Driver colours: [_extract_driver_colors] *)

(** [s.lstrip('#')]. *)
Fixpoint lstrip_hash (s : string) : string :=
  match s with
  | String "#"%char r => lstrip_hash r
  | _ => s
  end.

Definition hex_digit (c : ascii) : option Z :=
  let n := Z.of_nat (nat_of_ascii c) in
  if ((48 <=? n) && (n <=? 57))%Z then Some (n - 48)%Z
  else if ((97 <=? n) && (n <=? 102))%Z then Some (n - 87)%Z
  else if ((65 <=? n) && (n <=? 70))%Z then Some (n - 55)%Z
  else None.

Fixpoint hex_value (acc : Z) (s : string) : option Z :=
  match s with
  | EmptyString => Some acc
  | String c r =>
      match hex_digit c with
      | Some d => hex_value (16 * acc + d)%Z r
      | None => None
      end
  end.

(** [int(s, 16)] on the two-character pieces of a colour string: a non-empty
    run of ASCII hexadecimal digits is read, anything else is taken to raise
    [ValueError] (the signs, blanks and non-ASCII digits [int] also accepts do
    not occur in the provider's colour strings). *)
Definition int16 (s : string) : result Z :=
  match s with
  | EmptyString => Raise ValueError
  | _ => match hex_value 0 s with
         | Some v => Ok v
         | None => Raise ValueError
         end
  end.

(** The body of the [for driver, hex_color in color_mapping.items()] loop. *)
Fixpoint colors_loop (items : list (string * string)) (acc : gmap string Color)
    : result (gmap string Color) :=
  match items with
  | [] => Ok acc
  | (driver, hex_color) :: rest =>
      let hex_color := lstrip_hash hex_color in
      match int16 (String.substring 0 2 hex_color),
            int16 (String.substring 2 2 hex_color),
            int16 (String.substring 4 2 hex_color) with
      | Ok r, Ok g, Ok b =>
          colors_loop rest
            (<[driver := {| hex := String "#" hex_color; rgb := [r; g; b] |}]> acc)
      | Raise e, _, _ | _, Raise e, _ | _, _, Raise e => Raise e
      end
  end.

(** The colour table [_extract_driver_colors] leaves in [self.driver_colors]:
    the [except] branch replaces it by the empty dictionary. *)
Definition extracted_colors (s : Session) : gmap string Color :=
  match driver_color_mapping s with
  | Ok items =>
      match colors_loop items ∅ with
      | Ok c => c
      | Raise _ => ∅
      end
  | Raise _ => ∅
  end.

Definition extract_driver_colors (s : Session) : M unit :=
  modify (set_driver_colors (extracted_colors s)).

(** ** Track geometry: [_extract_track_coords] *)

(** [(v - v_min) * scale + 100]; not finite when [scale] is not. *)
Definition normalize (v v_min : Q) (scale : option Q) : option Q :=
  match scale with
  | Some k => Some ((v - v_min) * k + 100)%Q
  | None => None
  end.

(** The coordinate arrays after the optional rotation. *)
Definition rotated (tel : list TelRow) (info : option Rotation) : list Q * list Q :=
  match info with
  | Some r =>
      if Num.nonzero (rotation r) then
        (map (λ row, (X row * cos_rad r - Y row * sin_rad r)%Q) tel,
         map (λ row, (X row * sin_rad r + Y row * cos_rad r)%Q) tel)
      else (map X tel, map Y tel)
  | None => (map X tel, map Y tel)
  end.

(** The dictionary [_extract_track_coords] leaves in [self.track_coords]. Any
    exception in the [try] block (fastest lap or circuit information not
    available, [min] of an empty array) gives the fallback. *)
Definition extracted_track (s : Session) : TrackCoords :=
  match fastest_lap_telemetry s, circuit_info s with
  | Ok tel, Ok info =>
      let '(x, y) := rotated tel info in
      match Num.np_min x, Num.np_max x, Num.np_min y, Num.np_max y with
      | Some x_min, Some x_max, Some y_min, Some y_max =>
          let scale := Num.np_div 800 (Qmax (x_max - x_min) (y_max - y_min)) in
          TrackGeometry (map (λ v, normalize v x_min scale) x)
                        (map (λ v, normalize v y_min scale) y)
                        (map Distance tel) scale x_min y_min
      | _, _, _, _ => TrackEmpty
      end
  | _, _ => TrackEmpty
  end.

Definition extract_track_coords (s : Session) : M unit :=
  modify (set_track_coords (extracted_track s)).

(** ** Frame synthesis: [_process_frames] *)

(** [FPS] of [config.py]. *)
Definition FPS : Z := 25.

(** The dictionary [arrays] of one driver. *)
Record Arrays := {
  a_t : list Q;
  a_x : list Q;
  a_y : list Q;
  a_dist : list Q;
  a_speed : list Q;
  a_gear : list Z;
  a_throttle : list Q;
  a_brake : list Q;
  a_drs : list Z;
  a_lap : list Z;
  a_tyre : list string
}.

Definition empty_arrays : Arrays :=
  {| a_t := []; a_x := []; a_y := []; a_dist := []; a_speed := [];
     a_gear := []; a_throttle := []; a_brake := []; a_drs := [];
     a_lap := []; a_tyre := [] |}.

(** The eleven [extend] calls for one lap with telemetry [tel]. *)
Definition extend_arrays (arrays : Arrays) (lap : Lap) (tel : list TelRow) : Arrays :=
  {| a_t := a_t arrays ++ map SessionTime tel;
     a_x := a_x arrays ++ map X tel;
     a_y := a_y arrays ++ map Y tel;
     a_dist := a_dist arrays ++ map Distance tel;
     a_speed := a_speed arrays ++ map Speed tel;
     a_gear := a_gear arrays ++ map nGear tel;
     a_throttle := a_throttle arrays ++ map Throttle tel;
     a_brake := a_brake arrays ++ map Brake tel;
     a_drs := a_drs arrays ++ map DRS tel;
     a_lap := a_lap arrays ++ replicate (length tel) (LapNumber lap);
     a_tyre := a_tyre arrays ++ replicate (length tel) (Compound lap) |}.

(** [for _, lap in laps.iterlaps()]: a lap with an empty table is skipped, an
    exception of [get_telemetry] leaves the loop. *)
Fixpoint collect_laps (ls : list Lap) (arrays : Arrays) : result Arrays :=
  match ls with
  | [] => Ok arrays
  | lap :: rest =>
      match get_telemetry lap with
      | Raise e => Raise e
      | Ok [] => collect_laps rest arrays
      | Ok tel => collect_laps rest (extend_arrays arrays lap tel)
      end
  end.

(** What the collection loop carries: [all_data], [global_t_min] and
    [global_t_max] ([None] as in the source). *)
Record Collected := {
  all_data : gmap string Arrays;
  global_t_min : option Q;
  global_t_max : option Q
}.

Definition collected_init : Collected :=
  {| all_data := ∅; global_t_min := None; global_t_max := None |}.

(** The end of the loop body, once a driver has at least one sample. *)
Definition record_driver (code : string) (arrays : Arrays) (c : Collected) : Collected :=
  match Num.np_min (a_t arrays), Num.np_max (a_t arrays) with
  | Some t_min, Some t_max =>
      {| all_data := <[code := arrays]> (all_data c);
         global_t_min := Some (match global_t_min c with
                               | None => t_min
                               | Some g => Qmin g t_min
                               end);
         global_t_max := Some (match global_t_max c with
                               | None => t_max
                               | Some g => Qmax g t_max
                               end) |}
  | _, _ => c
  end.

(** [for driver_no in drivers]. *)
Fixpoint collect_drivers (s : Session) (ds : list string) (c : Collected)
    : result Collected :=
  match ds with
  | [] => Ok c
  | driver_no :: rest =>
      let code := get_driver s driver_no in
      match pick_drivers s driver_no with
      | [] => collect_drivers s rest c
      | ls =>
          match collect_laps ls empty_arrays with
          | Raise e => Raise e
          | Ok arrays =>
              match a_t arrays with
              | [] => collect_drivers s rest c
              | _ => collect_drivers s rest (record_driver code arrays c)
              end
          end
      end
  end.

(** [dt = 1 / fps]. *)
Definition frame_dt (fps : Z) : result Q :=
  if (fps =? 0)%Z then Raise ZeroDivisionError else Ok (1 / inject_Z fps)%Q.

(** [timeline = np.arange(global_t_min, global_t_max, dt)]; with [None]
    bounds numpy raises [TypeError]. *)
Definition make_timeline (c : Collected) (dt : Q) : result (list Q) :=
  match global_t_min c, global_t_max c with
  | Some t_min, Some t_max => Ok (Num.np_arange t_min t_max dt)
  | _, _ => Raise TypeError
  end.

(** [self.track_coords.get('scale', 1)] and the two offsets. *)
Definition track_scale (tc : TrackCoords) : option Q :=
  match tc with
  | TrackGeometry _ _ _ scale _ _ => scale
  | TrackEmpty => Some 1%Q
  end.

Definition track_offset_x (tc : TrackCoords) : Q :=
  match tc with
  | TrackGeometry _ _ _ _ offset_x _ => offset_x
  | TrackEmpty => 0%Q
  end.

Definition track_offset_y (tc : TrackCoords) : Q :=
  match tc with
  | TrackGeometry _ _ _ _ _ offset_y => offset_y
  | TrackEmpty => 0%Q
  end.

(** [round(float(v), 1)] of a value that may not be finite. *)
Definition round1_opt (v : option Q) : option Q :=
  (λ q, Num.py_round q 1) <$> v.

(** The snapshot written to [frame['drivers'][code]] from sample [idx]. All
    arrays of a driver have the length of [a_t] and [idx] is below it, so the
    defaults of [nth] are never returned. *)
Definition snapshot (tc : TrackCoords) (data : Arrays) (idx : nat) : DriverSnapshot :=
  {| ds_x := round1_opt (normalize (nth idx (a_x data) 0%Q) (track_offset_x tc) (track_scale tc));
     ds_y := round1_opt (normalize (nth idx (a_y data) 0%Q) (track_offset_y tc) (track_scale tc));
     ds_dist := Num.py_round (nth idx (a_dist data) 0%Q) 1;
     ds_speed := Num.py_round (nth idx (a_speed data) 0%Q) 1;
     ds_gear := nth idx (a_gear data) 0%Z;
     ds_throttle := Num.py_round (nth idx (a_throttle data) 0%Q) 1;
     ds_brake := Num.py_round (nth idx (a_brake data) 0%Q) 1;
     ds_drs := nth idx (a_drs data) 0%Z;
     ds_lap := nth idx (a_lap data) 0%Z;
     ds_tyre := if (idx <? length (a_tyre data))%nat
                then nth idx (a_tyre data) "UNKNOWN"%string
                else "UNKNOWN"%string |}.

(** The body of [for code, data in all_data.items()] at time [t]. *)
Definition driver_at (tc : TrackCoords) (t : Q) (data : Arrays) : DriverSnapshot :=
  snapshot tc data (Num.lookup_index (a_t data) t).

(** One iteration of [for i, t in enumerate(timeline)]. *)
Definition build_frame (tc : TrackCoords) (c : Collected) (t_min t : Q) : Frame :=
  {| f_t := Num.py_round (t - t_min) 3;
     f_drivers := driver_at tc t <$> all_data c;
     f_weather := None |}.

(** The loop over the timeline; [global_t_min] is not [None] once a timeline
    exists, so the second branch is never taken. *)
Definition build_frames (tc : TrackCoords) (c : Collected) (timeline : list Q)
    : list Frame :=
  match global_t_min c with
  | Some t_min => map (build_frame tc c t_min) timeline
  | None => []
  end.

(** ** Weather: [_add_weather_to_frames] *)

Definition weather_snapshot (row : WeatherRow) : WeatherSnapshot :=
  {| track_temp := Num.py_round (TrackTemp row) 1;
     air_temp := Num.py_round (AirTemp row) 1;
     humidity := Num.py_round (Humidity row) 1;
     wind_speed := Num.py_round (WindSpeed row) 1;
     rainfall := Rainfall row |}.

(** [weather_df.iloc[idx]] for the index resolved at [t]. *)
Definition weather_at (w : list WeatherRow) (t : Q) : option WeatherSnapshot :=
  weather_snapshot <$> w !! Num.lookup_index (map Time w) t.

Definition set_weather (ws : option WeatherSnapshot) (f : Frame) : Frame :=
  {| f_t := f_t f; f_drivers := f_drivers f; f_weather := ws |}.

(** [self.frames[i]['weather'] = ...] for every [i, t] of the timeline: frame
    [i] was built from step [i], so the two lists are walked together. *)
Definition weathered (w : list WeatherRow) (timeline : list Q) (fs : list Frame)
    : list Frame :=
  zip_with (λ t f, set_weather (weather_at w t) f) timeline fs.

(** [_add_weather_to_frames(timeline, t_offset)]: nothing is done without
    weather rows. The weather columns are taken to be present and finite, so
    the [try] block does not raise, and the resolved index is below the
    number of rows. *)
Definition add_weather_to_frames (s : Session) (timeline : list Q) : M unit :=
  match weather_data s with
  | None | Some [] => ret tt
  | Some w => modify (λ p, set_frames (weathered w timeline (frames p)) p)
  end.

(** [_process_frames(fps)]. Every exception it can raise is raised before
    [self.frames = []]. *)
Definition process_frames (s : Session) (fps : Z) : M unit :=
  (c <- lift (collect_drivers s (drivers s) collected_init) ;;
   dt <- lift (frame_dt fps) ;;
   timeline <- lift (make_timeline c dt) ;;
   modify (λ p, set_frames (build_frames (track_coords p) c timeline) p) ;;;
   add_weather_to_frames s timeline)%proc.

(** ** Loading a session: [load_and_process] *)

(** What the two provider calls at the head of [load_and_process] do:
    [fastf1.get_session] raises, or it returns a session object whose [load]
    raises, or the session is loaded. *)
Inductive Fetch :=
| GetSessionRaises (e : exn)
| LoadRaises (e : exn)
| Fetched (s : Session).

(** The dictionary [load_and_process] returns; [sm_drivers] lists the keys of
    the colour table. *)
Record Summary := {
  total_frames : nat;
  sm_drivers : list string;
  sm_driver_colors : gmap string Color;
  sm_track : TrackCoords;
  total_laps : Z
}.

(** [int(self.session.laps['LapNumber'].max())]: the maximum of an empty
    column is [nan], which [int] refuses. *)
Definition session_total_laps (s : Session) : result Z :=
  match map LapNumber (laps s) with
  | [] => Raise ValueError
  | n :: r => Ok (foldl Z.max n r)
  end.

Definition summary_of (laps_total : Z) (p : Processor) : Summary :=
  {| total_frames := length (frames p);
     sm_drivers := (map_to_list (driver_colors p)).*1;
     sm_driver_colors := driver_colors p;
     sm_track := track_coords p;
     total_laps := laps_total |}.

Definition load_and_process (src : Fetch) : M Summary :=
  match src with
  | GetSessionRaises e => raise e
  | LoadRaises e => (modify (set_session Unloaded) ;;; raise e)%proc
  | Fetched s =>
      (modify (set_session (Loaded s)) ;;;
       extract_driver_colors s ;;;
       extract_track_coords s ;;;
       process_frames s FPS ;;;
       n <- lift (session_total_laps s) ;;
       (λ p, (Ok (summary_of n p), p)))%proc
  end.

(** ** Frame queries *)

(** [l[start:stop]] for integers, as [PySlice_AdjustIndices] bounds them. *)
Definition adjust_index (len i : Z) : Z :=
  if (i <? 0)%Z then
    let i' := (i + len)%Z in
    if (i' <? 0)%Z then 0%Z else i'
  else if (len <=? i)%Z then len
  else i.

Definition py_slice {A} (l : list A) (start stop : Z) : list A :=
  let len := Z.of_nat (length l) in
  let start := adjust_index len start in
  let stop := adjust_index len stop in
  take (Z.to_nat (stop - start)) (drop (Z.to_nat start) l).

(** [get_frames(start, end)]. *)
Definition get_frames (p : Processor) (start stop : Z) : list Frame :=
  py_slice (frames p) start stop.

(** [get_frame(index)]; [None] is the empty dictionary returned for an index
    out of range. *)
Definition get_frame (p : Processor) (index : Z) : option Frame :=
  if ((0 <=? index) && (index <? Z.of_nat (length (frames p))))%Z
  then frames p !! Z.to_nat index
  else None.

(** ** Tyre strategy: [get_tyre_strategy] *)

Record Stint := {
  compound : string;
  start_lap : Z;
  end_lap : Z
}.

Record Strategy := {
  sg_driver : string;
  sg_color : string;
  sg_stints : list Stint
}.

(** [Series.unique()]: the values in order of first appearance. *)
Fixpoint unique (l : list string) : list string :=
  match l with
  | [] => []
  | x :: r => x :: filter (λ y, y ≠ x) (unique r)
  end.

(** The order [sort_values('LapNumber')] sorts by. *)
Definition lap_le (a b : Lap) : Prop := (LapNumber a ≤ LapNumber b)%Z.

#[global] Instance lap_le_dec : RelDecision lap_le.
Proof. intros a b. unfold lap_le. apply _. Defined.

(** [laps[laps['Driver'] == driver].sort_values('LapNumber')]. *)
Definition driver_laps (tbl : list Lap) (driver : string) : list Lap :=
  merge_sort lap_le (filter (λ lap, Driver lap = driver) tbl).

(** The variables of the stint loop. *)
Record StintLoop := {
  stints : list Stint;
  current_compound : option string;
  stint_start : Z
}.

(** [if current_compound:] is false for [None] and for the empty string. *)
Definition truthy (c : option string) : bool :=
  match c with
  | Some EmptyString | None => false
  | Some _ => true
  end.

(** [compound != current_compound]: a string always differs from [None]. *)
Definition differs (c : string) (current : option string) : bool :=
  match current with
  | Some c' => negb (String.eqb c c')
  | None => true
  end.

(** Appends the stint that is being closed, if there is one. *)
Definition close_stint (st : StintLoop) (last : Z) : list Stint :=
  match current_compound st with
  | Some c =>
      if truthy (Some c)
      then stints st ++ [{| compound := c; start_lap := stint_start st; end_lap := last |}]
      else stints st
  | None => stints st
  end.

(** The body of [for _, lap in driver_laps.iterrows()]. *)
Definition stint_step (st : StintLoop) (lap : Lap) : StintLoop :=
  if differs (Compound lap) (current_compound st) then
    {| stints := close_stint st (LapNumber lap - 1);
       current_compound := Some (Compound lap);
       stint_start := LapNumber lap |}
  else st.

(** [int(driver_laps['LapNumber'].max())]; it is only evaluated when the loop
    ran, that is for a non-empty table. *)
Definition max_lap (ls : list Lap) : Z :=
  match map LapNumber ls with
  | [] => 0
  | n :: r => foldl Z.max n r
  end.

(** The stints of one driver from the sorted rows. *)
Definition driver_stints (ls : list Lap) : list Stint :=
  let st := foldl stint_step
              {| stints := []; current_compound := None; stint_start := 1 |} ls in
  close_stint st (max_lap ls).

(** [self.driver_colors.get(driver, {}).get('hex', '#ffffff')]. *)
Definition strategy_color (colors : gmap string Color) (driver : string) : string :=
  match colors !! driver with
  | Some c => hex c
  | None => "#ffffff"
  end.

Definition tyre_strategies (tbl : list Lap) (colors : gmap string Color)
    : list Strategy :=
  map (λ driver,
         {| sg_driver := driver;
            sg_color := strategy_color colors driver;
            sg_stints := driver_stints (driver_laps tbl driver) |})
      (unique (map Driver tbl)).

(** [get_tyre_strategy()]: [self.session.laps] needs a loaded session. *)
Definition get_tyre_strategy (p : Processor) : result (list Strategy) :=
  match session p with
  | Loaded s => Ok (tyre_strategies (laps s) (driver_colors p))
  | Unloaded => Raise ProviderError
  | NoSession => Raise AttributeError
  end.

(** ** Reference definitions

    The notions the properties below are stated against, written from their
    description rather than from the code. *)

(** The elements of [l] whose position [i] satisfies [start ≤ i < stop]:
    the half-open range with every position outside [l] ignored. *)
Definition slice_positions {A} (l : list A) (start stop : Z) : list A :=
  (filter (λ ix : nat * A, (start ≤ Z.of_nat ix.1 < stop)%Z) (imap pair l)).*2.

(** Reading a negative index from the end of a sequence of length [len]. *)
Definition from_end (len i : Z) : Z :=
  if (i <? 0)%Z then (i + len)%Z else i.

(** Nearest-past lookup: [i] is the index of the latest sample not after [t]
    (the next sample, if any, is after [t]), or the first index when [t]
    precedes every sample. *)
Definition nearest_past (ts : list Q) (t : Q) (i : nat) : Prop :=
  match ts !! i with
  | Some a =>
      ((a <= t)%Q ∧ match ts !! S i with Some b => (t < b)%Q | None => True end)
      ∨ (i = 0%nat ∧ (t < a)%Q)
  | None => False
  end.

(** The timestamps of every sample the collection loop reads for a driver
    number, and for the whole session. *)
Definition lap_times (lap : Lap) : list Q :=
  match get_telemetry lap with
  | Ok tel => map SessionTime tel
  | Raise _ => []
  end.

Definition stream_times (s : Session) (driver_no : string) : list Q :=
  concat (map lap_times (pick_drivers s driver_no)).


(** The same session with one driver number taken out of [session.drivers]. *)
Definition without_driver (s : Session) (driver_no : string) : Session :=
  {| drivers := filter (λ n, n ≠ driver_no) (drivers s);
     get_driver := get_driver s;
     laps := laps s;
     driver_color_mapping := driver_color_mapping s;
     fastest_lap_telemetry := fastest_lap_telemetry s;
     circuit_info := circuit_info s;
     weather_data := weather_data s |}.

(** A run of stints that starts at lap [from], leaves no gap and no overlap
    between neighbours, and ends at lap [to]. *)
Fixpoint contiguous (from : Z) (l : list Stint) (to : Z) : Prop :=
  match l with
  | [] => to = (from - 1)%Z
  | st :: r =>
      start_lap st = from ∧ (start_lap st ≤ end_lap st)%Z
      ∧ contiguous (end_lap st + 1) r to
  end.

(** The compound of lap number [k] in a table sorted by lap number from 1. *)
Definition compound_at (ls : list Lap) (k : Z) : option string :=
  if (1 <=? k)%Z then Compound <$> ls !! Z.to_nat (k - 1) else None.




(** The state of the stint loop after the rows [seen], which carry the lap
    numbers 1, 2, ... in order: the open stint started at [stint_start] on
    the current compound, the closed stints run without gap from lap 1 to the
    lap before it, each on one compound, and a stint starts exactly at the
    laps whose compound differs from the lap before. *)
Definition stint_invariant (seen : list Lap) (st : StintLoop) : Prop :=
  let i := Z.of_nat (length seen) in
  (seen = []
   ∧ st = {| stints := []; current_compound := None; stint_start := 1 |})
  ∨ (seen ≠ []
     ∧ ∃ c, current_compound st = Some c ∧ c ≠ EmptyString
        ∧ (1 ≤ stint_start st ≤ i)%Z
        ∧ contiguous 1 (stints st) (stint_start st - 1)
        ∧ (∀ k, (stint_start st ≤ k ≤ i)%Z → compound_at seen k = Some c)
        ∧ (∀ s k, s ∈ stints st → (start_lap s ≤ k ≤ end_lap s)%Z →
                  compound_at seen k = Some (compound s))
        ∧ (∀ k, (1 ≤ k ≤ i)%Z →
              (k = stint_start st ∨ ∃ s, s ∈ stints st ∧ start_lap s = k)
              ↔ (k = 1%Z ∨ compound_at seen k ≠ compound_at seen (k - 1)))).

(** The arrays of a driver all have the length of the timestamp array, so an
    index below that length is in range for each of them. *)
Definition aligned (a : Arrays) : Prop :=
  let n := length (a_t a) in
  length (a_x a) = n ∧ length (a_y a) = n ∧ length (a_dist a) = n
  ∧ length (a_speed a) = n ∧ length (a_gear a) = n
  ∧ length (a_throttle a) = n ∧ length (a_brake a) = n
  ∧ length (a_drs a) = n ∧ length (a_lap a) = n ∧ length (a_tyre a) = n.

(** ** Sample sessions

    Small sessions on which the definitions are run below. *)

Module Samples.

Definition row (t x : Q) : TelRow :=
  {| SessionTime := t; X := x; Y := 0; Distance := x; Speed := 100;
     nGear := 3; Throttle := 1; Brake := 0; DRS := 0 |}.

Definition code_of (driver_no : string) : string :=
  if String.eqb driver_no "1" then "VER" else "HAM".

(** One lap of VER with samples at 0 s and 0.1 s. *)
Definition lap_ver : Lap :=
  {| DriverNumber := "1"; Driver := "VER"; LapNumber := 1; Compound := "SOFT";
     get_telemetry := Ok [row 0 0; row (1 # 10) 50] |}.

(** One lap of HAM whose telemetry table has no row. *)
Definition lap_ham_empty : Lap :=
  {| DriverNumber := "44"; Driver := "HAM"; LapNumber := 1; Compound := "SOFT";
     get_telemetry := Ok [] |}.

(** One lap of HAM whose telemetry cannot be fetched. *)
Definition lap_ham_broken : Lap :=
  {| DriverNumber := "44"; Driver := "HAM"; LapNumber := 1; Compound := "SOFT";
     get_telemetry := Raise ProviderError |}.

Definition colors_both : result (list (string * string)) :=
  Ok [("VER", "#3671C6"); ("HAM", "#27F4D2")]%string.

(** VER has telemetry, HAM has a lap without any sample. *)
Definition one_silent : Session :=
  {| drivers := ["1"; "44"]%string; get_driver := code_of;
     laps := [lap_ver; lap_ham_empty];
     driver_color_mapping := colors_both;
     fastest_lap_telemetry := Ok [row 0 0; row (1 # 10) 50];
     circuit_info := Ok None; weather_data := None |}.

(** VER has telemetry, fetching HAM's telemetry raises. *)
Definition one_broken : Session :=
  {| drivers := ["1"; "44"]%string; get_driver := code_of;
     laps := [lap_ver; lap_ham_broken];
     driver_color_mapping := colors_both;
     fastest_lap_telemetry := Ok [row 0 0; row (1 # 10) 50];
     circuit_info := Ok None; weather_data := None |}.

(** No driver has any telemetry. *)
Definition all_silent : Session :=
  {| drivers := ["44"]%string; get_driver := code_of;
     laps := [lap_ham_empty];
     driver_color_mapping := Ok [("HAM", "#27F4D2")]%string;
     fastest_lap_telemetry := Raise ProviderError;
     circuit_info := Ok None; weather_data := None |}.

(** The processor after [one_silent] was loaded into a fresh one. *)
Definition loaded : Processor := (load_and_process (Fetched one_silent) init).2.

(** A table of five laps with the given compounds, numbered from 1. *)
Definition stint_lap (n : Z) (c : string) : Lap :=
  {| DriverNumber := "1"; Driver := "VER"; LapNumber := n; Compound := c;
     get_telemetry := Ok [] |}.

Definition five_laps : list Lap :=
  [stint_lap 3 "MEDIUM"; stint_lap 1 "SOFT"; stint_lap 2 "SOFT";
   stint_lap 5 "MEDIUM"; stint_lap 4 "MEDIUM"]%string.

(** Two laps, the first without a compound text. *)
Definition blank_first : list Lap :=
  [stint_lap 1 EmptyString; stint_lap 2 "SOFT"]%string.

End Samples.

(** ** Analysis views

    The views of [F1DataProcessor] that read [session.laps] and
    [session.weather_data] directly. *)

(** A row of [session.laps] with the timing columns the views read; [None] is
    the missing value ([NaT]) of a column, a time is its
    [total_seconds()]. *)
Record LapTiming := {
  timed : Lap;
  LapTime : option Q;
  Sector1Time : option Q;
  Sector2Time : option Q;
  Sector3Time : option Q
}.






(** The dictionary of lists [get_sector_analysis] fills. *)
Record Sectors := {
  sc_lap_numbers : list Z;
  sector1 : list Q;
  sector2 : list (option Q);
  sector3 : list (option Q)
}.

(** The body of [for _, lap in laps.iterrows()]. *)
Definition sector_step (sectors : Sectors) (lap : LapTiming) : Sectors :=
  match Sector1Time lap with
  | Some s1 =>
      {| sc_lap_numbers := sc_lap_numbers sectors ++ [LapNumber (timed lap)];
         sector1 := sector1 sectors ++ [s1];
         sector2 := sector2 sectors ++ [Sector2Time lap];
         sector3 := sector3 sectors ++ [Sector3Time lap] |}
  | None => sectors
  end.

(** [get_sector_analysis(driver_code)] from the rows
    [session.laps.pick_drivers(driver_code)]. *)
Definition sector_analysis (picked : list LapTiming) : Sectors :=
  foldl sector_step
    {| sc_lap_numbers := []; sector1 := []; sector2 := []; sector3 := [] |}
    picked.




(** What [get_driver_telemetry] returns; [dt_lap_time] is the lap time before
    [str(...)] renders it. *)
Record DriverTelemetry := {
  dt_distance : list Q;
  dt_speed : list Q;
  dt_throttle : list Q;
  dt_brake : list Q;
  dt_gear : list Z;
  dt_drs : list Z;
  dt_lap_time : option Q;
  dt_compound : string
}.

(** How [get_driver_telemetry] ends: with its dictionary, with the
    [IndexError] of [.iloc[0]] on an empty selection, or with an exception of
    the provider. *)
Inductive TelemetryOutcome :=
| Telemetry (t : DriverTelemetry)
| IndexError
| TelemetryRaise (e : exn).

(** The part after the lap is selected: [lap_data.get_telemetry()] and the
    dictionary. *)
Definition telemetry_of (lap_data : LapTiming) : TelemetryOutcome :=
  match get_telemetry (timed lap_data) with
  | Raise e => TelemetryRaise e
  | Ok tel =>
      Telemetry {| dt_distance := map Distance tel;
                   dt_speed := map Speed tel;
                   dt_throttle := map Throttle tel;
                   dt_brake := map Brake tel;
                   dt_gear := map nGear tel;
                   dt_drs := map DRS tel;
                   dt_lap_time := LapTime lap_data;
                   dt_compound := Compound (timed lap_data) |}
  end.

(** [get_driver_telemetry(driver_code, lap)] from the rows
    [session.laps.pick_drivers(driver_code)] and the outcome [quickest] of
    [pick_drivers(driver_code).pick_fastest()]. [if lap:] is false for [None]
    and for 0. *)
Definition get_driver_telemetry (picked : list LapTiming)
    (quickest : result LapTiming) (lap : option Z) : TelemetryOutcome :=
  let by_fastest :=
    match quickest with
    | Ok lap_data => telemetry_of lap_data
    | Raise e => TelemetryRaise e
    end in
  match lap with
  | Some n =>
      if (n =? 0)%Z then by_fastest
      else match filter (λ r, LapNumber (timed r) = n) picked with
           | lap_data :: _ => telemetry_of lap_data
           | [] => IndexError
           end
  | None => by_fastest
  end.

(** ** Race schedule: [get_race_schedule] *)

(** A row of the event schedule; [EventDate] is [str(event['EventDate'].date())]
    and [EventName] is [str(event['EventName'])]. *)
Record Event := {
  RoundNumber : Z;
  EventName : string;
  Country : string;
  EventDate : string;
  EventFormat : string
}.

Record Race := {
  rc_round : Z;
  rc_name : string;
  rc_country : string;
  rc_date : string;
  has_sprint : bool
}.

(** [sub in s] on strings. *)
Fixpoint contains (sub s : string) : bool :=
  String.prefix sub s
  || match s with
     | EmptyString => false
     | String _ r => contains sub r
     end.

(** The body of [for _, event in schedule.iterrows()]. *)
Definition schedule_step (races : list Race) (event : Event) : list Race :=
  if contains "Testing" (EventName event) then races
  else races ++ [{| rc_round := RoundNumber event;
                    rc_name := EventName event;
                    rc_country := Country event;
                    rc_date := EventDate event;
                    has_sprint :=
                      String.eqb (EventFormat event) "sprint_qualifying" |}].

(** [get_race_schedule(year)] from the rows of
    [fastf1.get_event_schedule(year)]. *)
Definition race_schedule (schedule : list Event) : list Race :=
  foldl schedule_step [] schedule.

(** ** The frames route of [app.py] *)

(** A query argument after [int(request.args.get(name, default))]: absent, or
    present with the outcome of [int] on its text. *)
Inductive QueryInt :=
| Absent
| Present (v : result Z).

Definition query_int (a : QueryInt) (default : Z) : result Z :=
  match a with
  | Absent => Ok default
  | Present v => v
  end.

(** The JSON answer of the route: the window and its frames, or the error
    answer with status 500. *)
Inductive FramesAnswer :=
| FramesOk (start stop : Z) (fs : list Frame)
| FramesError (e : exn).

(** [frames()] of [app.py]. *)
Definition frames_route (p : Processor) (start_arg end_arg : QueryInt)
    : FramesAnswer :=
  match query_int start_arg 0 with
  | Raise e => FramesError e
  | Ok start =>
      match query_int end_arg (start + 100) with
      | Raise e => FramesError e
      | Ok stop => FramesOk start stop (get_frames p start stop)
      end
  end.

(** ** Further reference definitions *)

(** Sample by sample, the lap number and the compound of the arrays [a] are
    those of one lap of [L]. *)
Definition from_laps (L : list Lap) (a : Arrays) : Prop :=
  ∀ i n c, a_lap a !! i = Some n → a_tyre a !! i = Some c →
    ∃ lap, lap ∈ L ∧ LapNumber lap = n ∧ Compound lap = c.

(** * Properties *)

(** ** Frame queries *)

Section Slices.
Context {A : Type}.
Implicit Types l : list A.

Lemma positions_from l (n : nat) (start stop : Z) :
  (filter (λ ix : nat * A, (start ≤ Z.of_nat ix.1 < stop)%Z)
          (imap (λ i x, ((n + i)%nat, x)) l)).*2
  = take (Z.to_nat (stop - Z.max start (Z.of_nat n)))
         (drop (Z.to_nat (start - Z.of_nat n)) l).
Proof.
  revert n. induction l as [|x l IH]; intros n.
  - by rewrite drop_nil, take_nil.
  - cbn [imap]. rewrite filter_cons.
    rewrite (imap_ext _ (λ i y, ((S n + i)%nat, y))).
    2:{ intros; simpl; f_equal; lia. }
    cbn [fst]. destruct (decide _) as [Hin|Hout].
    + rewrite fmap_cons, IH. cbn [snd].
      replace (Z.to_nat (start - Z.of_nat n)) with 0%nat by lia.
      replace (Z.to_nat (start - Z.of_nat (S n))) with 0%nat by lia.
      rewrite !drop_0.
      replace (Z.to_nat (stop - Z.max start (Z.of_nat n)))
        with (S (Z.to_nat (stop - Z.max start (Z.of_nat (S n))))) by lia.
      done.
    + rewrite IH.
      destruct (decide (start ≤ Z.of_nat n)%Z) as [Hle|Hgt].
      * replace (Z.to_nat (stop - Z.max start (Z.of_nat n))) with 0%nat by lia.
        replace (Z.to_nat (stop - Z.max start (Z.of_nat (S n)))) with 0%nat by lia.
        done.
      * replace (Z.to_nat (start - Z.of_nat n))
          with (S (Z.to_nat (start - Z.of_nat (S n)))) by lia.
        cbn [drop]. do 3 f_equal. lia.
Qed.

Lemma slice_positions_take_drop l (start stop : Z) :
  slice_positions l start stop
  = take (Z.to_nat (stop - Z.max start 0)) (drop (Z.to_nat start) l).
Proof.
  unfold slice_positions.
  rewrite (imap_ext pair (λ i x, ((0 + i)%nat, x))) by done.
  rewrite positions_from. do 2 f_equal; lia.
Qed.

Lemma take_drop_clamp l (n k n' k' : nat) :
  k `min` length l = k' `min` length l →
  n `min` (length l - k) = n' `min` (length l - k') →
  take n (drop k l) = take n' (drop k' l).
Proof.
  intros Hk Hn.
  assert (Hd : ∀ j, drop j l = drop (j `min` length l) l).
  { intros j. destruct (decide (j ≤ length l)) as [?|?].
    - by rewrite Nat.min_l.
    - rewrite Nat.min_r by lia. by rewrite !drop_ge by lia. }
  assert (Ht : ∀ j (m : list A), take j m = take (j `min` length m) m).
  { intros j m. destruct (decide (j ≤ length m)) as [?|?].
    - by rewrite Nat.min_l.
    - rewrite Nat.min_r by lia. by rewrite !take_ge by lia. }
  rewrite (Hd k), (Hd k'), Hk.
  rewrite (Ht n), (Ht n'). f_equal.
  rewrite !length_drop. lia.
Qed.

(** Python's slice is the range of positions once negative indices are read
    from the end. *)
Lemma py_slice_positions l (start stop : Z) :
  py_slice l start stop
  = slice_positions l (from_end (Z.of_nat (length l)) start)
                      (from_end (Z.of_nat (length l)) stop).
Proof.
  rewrite slice_positions_take_drop. unfold py_slice, adjust_index, from_end.
  apply take_drop_clamp;
    repeat case_match; rewrite ?Z.ltb_lt, ?Z.ltb_ge, ?Z.leb_le, ?Z.leb_gt in *;
    lia.
Qed.

End Slices.

Lemma get_frames_positions (p : Processor) (start stop : Z) :
  get_frames p start stop
  = slice_positions (frames p) (from_end (Z.of_nat (length (frames p))) start)
                               (from_end (Z.of_nat (length (frames p))) stop).
Proof. apply py_slice_positions. Qed.

Lemma get_frames_past_end (p : Processor) (start stop : Z) :
  (Z.of_nat (length (frames p)) ≤ start)%Z → get_frames p start stop = [].
Proof.
  intros Hs. unfold get_frames, py_slice.
  assert (Ha : ∀ i, (adjust_index (Z.of_nat (length (frames p))) i
                     ≤ Z.of_nat (length (frames p)))%Z).
  { intros i. unfold adjust_index.
    repeat case_match; rewrite ?Z.ltb_lt, ?Z.ltb_ge, ?Z.leb_le, ?Z.leb_gt in *; lia. }
  assert (Hst : adjust_index (Z.of_nat (length (frames p))) start
                = Z.of_nat (length (frames p))).
  { unfold adjust_index.
    repeat case_match; rewrite ?Z.ltb_lt, ?Z.ltb_ge, ?Z.leb_le, ?Z.leb_gt in *; lia. }
  rewrite Hst. specialize (Ha stop).
  replace (Z.to_nat (_ - _)) with 0%nat by lia. done.
Qed.

Lemma get_frame_spec (p : Processor) (index : Z) :
  get_frame p index
  = if decide (0 ≤ index < Z.of_nat (length (frames p)))%Z
    then frames p !! Z.to_nat index else None.
Proof.
  unfold get_frame. case_decide as Hd.
  - replace (_ && _) with true; [done|].
    symmetry. apply andb_true_iff. rewrite Z.leb_le, Z.ltb_lt. lia.
  - replace (_ && _) with false; [done|].
    symmetry. apply andb_false_iff. rewrite Z.leb_gt, Z.ltb_ge. lia.
Qed.

(** C9 (amended). For non-negative [start] and [end], [get_frames] returns
    exactly the frames at the positions [start ≤ i < end], positions past the
    end being ignored without error, and nothing when [start] is at or past
    the number of frames; [get_frame] returns the frame at [index] when
    [0 ≤ index < length] and the not-found result otherwise, for every
    integer [index]. *)
Theorem get_frames_nonnegative (p : Processor) (start stop : Z) :
  (0 ≤ start)%Z → (0 ≤ stop)%Z →
  get_frames p start stop = slice_positions (frames p) start stop
  ∧ ((Z.of_nat (length (frames p)) ≤ start)%Z → get_frames p start stop = [])
  ∧ ∀ index : Z,
      ((0 ≤ index < Z.of_nat (length (frames p)))%Z →
       ∃ f, get_frame p index = Some f ∧ frames p !! Z.to_nat index = Some f)
      ∧ (¬ (0 ≤ index < Z.of_nat (length (frames p)))%Z →
         get_frame p index = None).
Proof.
  intros Hs He. split_and!.
  - rewrite get_frames_positions. unfold from_end.
    by rewrite !(proj2 (Z.ltb_ge _ _)).
  - apply get_frames_past_end.
  - intros index. rewrite get_frame_spec. split; intros Hi.
    + rewrite decide_True by done.
      destruct (lookup_lt_is_Some_2 (frames p) (Z.to_nat index)) as [f Hf]; [lia|].
      eauto.
    + by rewrite decide_False.
Qed.

Lemma get_frames_nonnegative_witness :
  get_frames Samples.loaded 1 7 = slice_positions (frames Samples.loaded) 1 7
  ∧ length (get_frames Samples.loaded 1 7) = 2%nat.
Proof.
  split.
  - apply (get_frames_nonnegative Samples.loaded 1 7); lia.
  - vm_compute. reflexivity.
Defined.

(** C9 as stated fails for a negative [start]: with three frames,
    [get_frames(-1, 3)] is the last frame alone, while the positions
    [-1 ≤ i < 3] that exist are all three. *)
Lemma get_frames_not_clamped :
  length (frames Samples.loaded) = 3%nat
  ∧ get_frames Samples.loaded (-1) 3 = drop 2 (frames Samples.loaded)
  ∧ slice_positions (frames Samples.loaded) (-1) 3 = frames Samples.loaded
  ∧ get_frames Samples.loaded (-1) 3
    ≠ slice_positions (frames Samples.loaded) (-1) 3.
Proof.
  split_and!.
  - vm_compute. reflexivity.
  - vm_compute. reflexivity.
  - vm_compute. reflexivity.
  - intros Heq. apply (f_equal length) in Heq. vm_compute in Heq. discriminate.
Qed.

(** C10. On a non-empty frame sequence a negative [start] or [end] of
    [get_frames] counts from the end of the sequence, as in a Python slice:
    the result is the range of positions after [length] has been added to
    each negative argument, and [get_frames(-1, length)] is the last frame. *)
Theorem get_frames_negative_from_end (p : Processor) (start stop : Z) :
  frames p ≠ [] →
  get_frames p start stop
  = slice_positions (frames p)
      (if (start <? 0)%Z then (start + Z.of_nat (length (frames p)))%Z else start)
      (if (stop <? 0)%Z then (stop + Z.of_nat (length (frames p)))%Z else stop)
  ∧ ∃ f, last (frames p) = Some f
         ∧ get_frames p (-1) (Z.of_nat (length (frames p))) = [f].
Proof.
  intros Hne. split; [apply get_frames_positions|].
  assert (∃ fs f0, frames p = fs ++ [f0]) as (fs & f0 & Hfs).
  { destruct (frames p) as [|f0 fs _] using rev_ind; [done|eauto]. }
  exists f0. rewrite Hfs. split; [apply last_snoc|].
  unfold get_frames, py_slice. rewrite Hfs, length_app. cbn [length].
  unfold adjust_index.
  repeat case_match; rewrite ?Z.ltb_lt, ?Z.ltb_ge, ?Z.leb_le, ?Z.leb_gt in *;
    try lia.
  replace (Z.to_nat (-1 + _)) with (length fs) by lia.
  rewrite drop_app_length.
  replace (Z.to_nat _) with 1%nat by lia. done.
Qed.

Lemma get_frames_negative_from_end_witness :
  ∃ f, last (frames Samples.loaded) = Some f
       ∧ get_frames Samples.loaded (-1) 3 = [f].
Proof.
  destruct (get_frames_negative_from_end Samples.loaded (-1) 3) as [_ H].
  - vm_compute. discriminate.
  - exact H.
Defined.

(** ** Sample lookup *)

Section Lookup.
Import Num.
Local Open Scope Q_scope.

Lemma Qltb_lt (a b : Q) : Qltb a b = true ↔ a < b.
Proof.
  unfold Qltb. rewrite negb_true_iff. split.
  - intros H. apply Qnot_le_lt. intros Hle.
    apply Qle_bool_iff in Hle. congruence.
  - intros H. destruct (Qle_bool b a) eqn:E; [|done].
    apply Qle_bool_iff in E. by apply Qle_not_lt in E.
Qed.

Lemma Qltb_ge (a b : Q) : Qltb a b = false ↔ b <= a.
Proof.
  unfold Qltb. rewrite negb_false_iff. apply Qle_bool_iff.
Qed.

(** Once the fuel covers the width of the search interval, more fuel does not
    change the result: the loop has ended. [searchsorted] starts with the
    length of the array, which covers the whole interval. *)
Lemma binsearch_left_fuel (arr : list Q) (key : Q) (fuel fuel' lo hi : nat) :
  (hi - lo ≤ fuel)%nat → (hi - lo ≤ fuel')%nat →
  binsearch_left fuel arr key lo hi = binsearch_left fuel' arr key lo hi.
Proof.
  revert fuel' lo hi. induction fuel as [|fuel IH]; intros fuel' lo hi Hf Hf'.
  - destruct fuel' as [|fuel']; [done|]. cbn [binsearch_left].
    by rewrite (proj2 (Nat.ltb_ge lo hi)) by lia.
  - destruct fuel' as [|fuel'].
    { cbn [binsearch_left]. by rewrite (proj2 (Nat.ltb_ge lo hi)) by lia. }
    cbn [binsearch_left]. destruct (lo <? hi)%nat eqn:Hlt; [|done].
    apply Nat.ltb_lt in Hlt.
    pose proof (Nat.div_lt (hi - lo) 2) as Hdiv.
    destruct (arr !! _) as [v|]; [|done].
    destruct (Qltb v key); apply IH; lia.
Qed.

(** In a sorted array the samples are ordered by position. *)
Lemma sorted_lookup (ts : list Q) :
  Sorted Qle ts →
  ∀ (i j : nat) a b, (i ≤ j)%nat → ts !! i = Some a → ts !! j = Some b → a <= b.
Proof.
  intros Hs. apply Sorted.Sorted_StronglySorted in Hs;
    [|intros x y z; apply Qle_trans].
  induction Hs as [|x l Hl IH Hall]; intros i j a b Hij Hi Hj; [done|].
  destruct i as [|i], j as [|j]; simplify_eq/=; try lia.
  - apply Qle_refl.
  - rewrite Forall_lookup in Hall. eauto.
  - apply (IH i j); [lia|done..].
Qed.

(** The binary search keeps every sample before [min_idx] below the key and
    every sample from [max_idx] on at or above it. *)
Lemma binsearch_left_bounds (arr : list Q) (key : Q) :
  Sorted Qle arr →
  ∀ (fuel lo hi : nat),
    (lo ≤ hi ≤ length arr)%nat → (hi - lo ≤ fuel)%nat →
    (∀ j v, (j < lo)%nat → arr !! j = Some v → v < key) →
    (∀ j v, (hi ≤ j)%nat → arr !! j = Some v → key <= v) →
    (lo ≤ binsearch_left fuel arr key lo hi ≤ hi)%nat
    ∧ (∀ j v, (j < binsearch_left fuel arr key lo hi)%nat →
              arr !! j = Some v → v < key)
    ∧ (∀ j v, (binsearch_left fuel arr key lo hi ≤ j)%nat →
              arr !! j = Some v → key <= v).
Proof.
  intros Hs fuel. induction fuel as [|fuel IH]; intros lo hi Hb Hf Hlo Hhi.
  - assert (lo = hi) as -> by lia. cbn. split_and!; [lia|done..].
  - cbn [binsearch_left]. destruct (lo <? hi)%nat eqn:Hlt.
    2:{ apply Nat.ltb_ge in Hlt. assert (lo = hi) as -> by lia.
        split_and!; [lia|done..]. }
    apply Nat.ltb_lt in Hlt.
    set (mid := (lo + (hi - lo) / 2)%nat).
    assert (Hmid : (lo ≤ mid < hi)%nat).
    { subst mid. pose proof (Nat.div_lt (hi - lo) 2). lia. }
    destruct (lookup_lt_is_Some_2 arr mid) as [v Hv]; [lia|]. rewrite Hv.
    destruct (Qltb v key) eqn:Hcmp.
    + apply Qltb_lt in Hcmp.
      destruct (IH (mid + 1)%nat hi) as (Hr & Hbelow & Habove);
        [lia|lia| |done|].
      * intros j w Hj Hw. eapply Qle_lt_trans; [|exact Hcmp].
        apply (sorted_lookup arr Hs j mid); [lia|done..].
      * split_and!; [lia|lia|exact Hbelow|exact Habove].
    + apply Qltb_ge in Hcmp.
      destruct (IH lo mid) as (Hr & Hbelow & Habove); [lia|lia|done| |].
      * intros j w Hj Hw. eapply Qle_trans; [exact Hcmp|].
        apply (sorted_lookup arr Hs mid j); [lia|done..].
      * split_and!; [lia|lia|exact Hbelow|exact Habove].
Qed.

(** [np.searchsorted] on a sorted array: the number of samples below the
    key. *)
Lemma searchsorted_spec (ts : list Q) (t : Q) :
  Sorted Qle ts →
  (searchsorted ts t ≤ length ts)%nat
  ∧ (∀ j v, (j < searchsorted ts t)%nat → ts !! j = Some v → v < t)
  ∧ (∀ j v, (searchsorted ts t ≤ j)%nat → ts !! j = Some v → t <= v).
Proof.
  intros Hs. unfold searchsorted.
  destruct (binsearch_left_bounds ts t Hs (length ts) 0 (length ts))
    as (Hr & Hbelow & Habove); [lia|lia| | |].
  - intros j v Hj. lia.
  - intros j v Hj Hv. apply lookup_lt_Some in Hv. lia.
  - split_and!; [lia|exact Hbelow|exact Habove].
Qed.

(** C1 (amended). On a non-empty stream with non-decreasing timestamps the
    index resolved for a timeline step [t] is the first index whose
    timestamp is at or after [t]: every earlier sample is strictly before
    [t], and the sample at the index is not before [t], unless every sample
    is before [t], in which case the index is the last one. In particular it
    is the first index when [t] does not exceed the first timestamp. The
    driver snapshot and the weather snapshot at [t] are both read at that
    index. *)
Theorem lookup_index_first_not_before (ts : list Q) (t : Q) :
  ts ≠ [] → Sorted Qle ts →
  ∃ i : nat,
    lookup_index ts t = i
    ∧ (i < length ts)%nat
    ∧ (∀ j v, (j < i)%nat → ts !! j = Some v → v < t)
    ∧ ((∃ v, ts !! i = Some v ∧ t <= v)
       ∨ (i = (length ts - 1)%nat ∧ ∀ j v, ts !! j = Some v → v < t))
    ∧ (∀ a, ts !! 0%nat = Some a → t <= a → i = 0%nat)
    ∧ (∀ tc data, a_t data = ts → driver_at tc t data = snapshot tc data i)
    ∧ (∀ w, map Time w = ts →
            weather_at w t = weather_snapshot <$> w !! i).
Proof.
  intros Hne Hs. exists (lookup_index ts t).
  destruct (searchsorted_spec ts t Hs) as (Hlen & Hbelow & Habove).
  assert (Hpos : (0 < length ts)%nat) by (destruct ts; [done|cbn; lia]).
  assert (Hlt : (lookup_index ts t < length ts)%nat)
    by (unfold lookup_index; lia).
  assert (Hle : (lookup_index ts t ≤ searchsorted ts t)%nat)
    by (unfold lookup_index; lia).
  assert (Hbelow' : ∀ j v, (j < lookup_index ts t)%nat → ts !! j = Some v → v < t).
  { intros j v Hj. apply Hbelow. lia. }
  split_and!; try done.
  - destruct (decide (searchsorted ts t < length ts)%nat) as [Hin|Hout].
    + left. destruct (lookup_lt_is_Some_2 ts (lookup_index ts t) Hlt) as [v Hv].
      exists v. split; [done|]. apply (Habove (lookup_index ts t)); [|done].
      unfold lookup_index. lia.
    + right. split; [unfold lookup_index; lia|].
      intros j v Hv. apply (Hbelow j); [|done].
      apply lookup_lt_Some in Hv. lia.
  - intros a Ha Hta. destruct (lookup_index ts t) as [|i] eqn:E; [done|].
    exfalso. apply (Qlt_not_le a t); [|done]. apply (Hbelow' 0%nat); [lia|done].
  - intros tc data <-. done.
  - intros w <-. done.
Qed.

Lemma lookup_index_first_not_before_witness :
  ∃ i : nat, lookup_index [0; 1 # 10] (1 # 25) = i ∧ (i < 2)%nat.
Proof.
  destruct (lookup_index_first_not_before [0; 1 # 10] (1 # 25))
    as (i & Hi & Hlt & _).
  - discriminate.
  - repeat constructor. cbv. discriminate.
  - exists i. split; [exact Hi|exact Hlt].
Defined.

(** C1 as stated fails between two samples. VER is sampled at 0 s and at
    0.1 s; the timeline step of frame 1 is 0.04 s, whose nearest-past sample
    is index 0, but the lookup resolves index 1 and the frame shows the
    distance of the later sample. *)
Lemma lookup_index_not_nearest_past :
  stream_times Samples.one_silent "1" = [0; 1 # 10]
  ∧ f_t <$> frames Samples.loaded !! 1%nat = Some (py_round (1 # 25) 3)
  ∧ nearest_past [0; 1 # 10] (1 # 25) 0
  ∧ lookup_index [0; 1 # 10] (1 # 25) = 1%nat
  ∧ ¬ nearest_past [0; 1 # 10] (1 # 25) 1
  ∧ ds_dist <$> (frames Samples.loaded !! 1%nat ≫= λ f, f_drivers f !! "VER"%string)
    = Some (py_round 50 1).
Proof.
  split_and!.
  - vm_compute. reflexivity.
  - vm_compute. reflexivity.
  - left. split; cbv; [discriminate|reflexivity].
  - vm_compute. reflexivity.
  - intros [[H _]|[H _]]; [|discriminate]. cbv in H. by apply H.
  - vm_compute. reflexivity.
Qed.

End Lookup.

(** ** Collecting telemetry *)

Lemma collect_laps_raises (ls : list Lap) (arrays : Arrays) (lap : Lap) (e : exn) :
  lap ∈ ls → get_telemetry lap = Raise e →
  ∃ e', collect_laps ls arrays = Raise e'.
Proof.
  revert arrays. induction ls as [|l ls IH]; intros arrays Hin He.
  - by apply elem_of_nil in Hin.
  - cbn [collect_laps]. apply elem_of_cons in Hin as [->|Hin].
    + rewrite He. eauto.
    + destruct (get_telemetry l) as [[|r tel]|e0]; eauto.
Qed.

Lemma collect_laps_silent (ls : list Lap) (arrays : Arrays) :
  (∀ lap, lap ∈ ls → get_telemetry lap = Ok []) →
  collect_laps ls arrays = Ok arrays.
Proof.
  induction ls as [|l ls IH]; intros Hall; [done|].
  cbn [collect_laps]. rewrite (Hall l) by apply list_elem_of_here.
  apply IH. intros lap Hin. apply Hall. by apply list_elem_of_further.
Qed.

(** A driver without any telemetry row leaves the loop variables as they
    are. *)
Lemma collect_drivers_skip (s : Session) (d : string) (ds : list string) (c : Collected) :
  (∀ lap, lap ∈ pick_drivers s d → get_telemetry lap = Ok []) →
  collect_drivers s (d :: ds) c = collect_drivers s ds c.
Proof.
  intros Hall. cbn [collect_drivers].
  destruct (pick_drivers s d) as [|l ls] eqn:Hp; [done|].
  by rewrite (collect_laps_silent (l :: ls) empty_arrays Hall).
Qed.

Lemma collect_drivers_silent (s : Session) (ds : list string) (c : Collected) :
  (∀ d lap, d ∈ ds → lap ∈ pick_drivers s d → get_telemetry lap = Ok []) →
  collect_drivers s ds c = Ok c.
Proof.
  induction ds as [|d ds IH]; intros Hall; [done|].
  rewrite collect_drivers_skip.
  - apply IH. intros d' lap Hd. apply Hall. by apply list_elem_of_further.
  - intros lap. apply Hall, list_elem_of_here.
Qed.

Lemma collect_drivers_raises (s : Session) (ds : list string) (c : Collected)
    (d : string) (lap : Lap) (e : exn) :
  d ∈ ds → lap ∈ pick_drivers s d → get_telemetry lap = Raise e →
  ∃ e', collect_drivers s ds c = Raise e'.
Proof.
  revert c. induction ds as [|d0 ds IH]; intros c Hd Hlap He.
  - by apply elem_of_nil in Hd.
  - cbn [collect_drivers]. apply elem_of_cons in Hd as [<-|Hd].
    + destruct (pick_drivers s d) as [|l ls] eqn:Hp.
      { by apply elem_of_nil in Hlap. }
      destruct (collect_laps_raises (l :: ls) empty_arrays lap e Hlap He)
        as [e' ->]. eauto.
    + destruct (pick_drivers s d0) as [|l ls]; [by apply IH|].
      destruct (collect_laps (l :: ls) empty_arrays) as [arrays|e0]; [|eauto].
      destruct (a_t arrays); by apply IH.
Qed.

(** [_process_frames] stage by stage. *)
Lemma process_frames_unfold (s : Session) (fps : Z) (p : Processor) :
  process_frames s fps p =
  match collect_drivers s (drivers s) collected_init with
  | Raise e => (Raise e, p)
  | Ok c =>
      match frame_dt fps with
      | Raise e => (Raise e, p)
      | Ok dt =>
          match make_timeline c dt with
          | Raise e => (Raise e, p)
          | Ok timeline =>
              add_weather_to_frames s timeline
                (set_frames (build_frames (track_coords p) c timeline) p)
          end
      end
  end.
Proof.
  unfold process_frames, bind, lift, modify.
  destruct (collect_drivers _ _ _); [|done].
  destruct (frame_dt fps); [|done].
  by destruct (make_timeline _ _).
Qed.


(** [load_and_process] on a session the provider delivered. *)
Lemma load_fetched_unfold (s : Session) (p : Processor) :
  load_and_process (Fetched s) p =
  let p1 := set_track_coords (extracted_track s)
              (set_driver_colors (extracted_colors s)
                 (set_session (Loaded s) p)) in
  match process_frames s FPS p1 with
  | (Raise e, p2) => (Raise e, p2)
  | (Ok _, p2) =>
      match session_total_laps s with
      | Raise e => (Raise e, p2)
      | Ok n => (Ok (summary_of n p2), p2)
      end
  end.
Proof.
  cbv [load_and_process bind lift modify extract_driver_colors
         extract_track_coords].
  destruct (process_frames s FPS _) as [[[]|e] p2]; [|done].
  by destruct (session_total_laps s).
Qed.

Lemma frame_dt_ok (fps : Z) : fps ≠ 0%Z → frame_dt fps = Ok (1 / inject_Z fps)%Q.
Proof. intros H. unfold frame_dt. by rewrite (proj2 (Z.eqb_neq fps 0) H). Qed.

(** C6 (not met by the code). When no driver has a telemetry row the
    collection loop ends with [global_t_min = global_t_max = None],
    [np.arange] raises [TypeError], and [_process_frames] and
    [load_and_process] fail with it instead of producing an empty frame
    sequence. *)
Theorem no_telemetry_raises (s : Session) (fps : Z) (p : Processor) :
  (∀ d lap, d ∈ drivers s → lap ∈ pick_drivers s d → get_telemetry lap = Ok []) →
  fps ≠ 0%Z →
  process_frames s fps p = (Raise TypeError, p)
  ∧ (load_and_process (Fetched s) p).1 = Raise TypeError.
Proof.
  intros Hall Hfps.
  assert (Hp : ∀ q, process_frames s fps q = (Raise TypeError, q)).
  { intros q. rewrite process_frames_unfold.
    rewrite (collect_drivers_silent s (drivers s) collected_init Hall).
    by rewrite frame_dt_ok. }
  split; [apply Hp|].
  rewrite load_fetched_unfold. cbv zeta.
  assert (Hq : ∀ q, process_frames s FPS q = (Raise TypeError, q)).
  { intros q. rewrite process_frames_unfold.
    by rewrite (collect_drivers_silent s (drivers s) collected_init Hall). }
  by rewrite Hq.
Qed.

Lemma no_telemetry_raises_witness :
  process_frames Samples.all_silent FPS init = (Raise TypeError, init)
  ∧ (load_and_process (Fetched Samples.all_silent) init).1 = Raise TypeError.
Proof.
  apply (no_telemetry_raises Samples.all_silent FPS init).
  - intros d lap Hd Hlap. apply list_elem_of_singleton in Hd as ->.
    vm_compute in Hlap. apply list_elem_of_singleton in Hlap as ->. reflexivity.
  - discriminate.
Defined.

(** C4 (amended). An exception raised by [get_telemetry] for a lap of any
    listed driver leaves the collection loop: [_process_frames] raises,
    [self] is left as it was (no frame is produced for any driver), and
    [load_and_process] fails with the same exception, the frame sequence
    held before still in place. *)
Theorem telemetry_error_aborts (s : Session) (fps : Z) (p : Processor)
    (d : string) (lap : Lap) (e : exn) :
  d ∈ drivers s → lap ∈ pick_drivers s d → get_telemetry lap = Raise e →
  ∃ e', process_frames s fps p = (Raise e', p)
        ∧ (∃ e'', (load_and_process (Fetched s) p).1 = Raise e'')
        ∧ frames (load_and_process (Fetched s) p).2 = frames p.
Proof.
  intros Hd Hlap He.
  destruct (collect_drivers_raises s (drivers s) collected_init d lap e Hd Hlap He)
    as [e' He'].
  exists e'. split_and!.
  - by rewrite process_frames_unfold, He'.
  - exists e'. rewrite load_fetched_unfold. cbv zeta.
    by rewrite process_frames_unfold, He'.
  - rewrite load_fetched_unfold. cbv zeta.
    by rewrite process_frames_unfold, He'.
Qed.

Lemma telemetry_error_aborts_witness :
  ∃ e', process_frames Samples.one_broken FPS init = (Raise e', init)
        ∧ (∃ e'', (load_and_process (Fetched Samples.one_broken) init).1 = Raise e'')
        ∧ frames (load_and_process (Fetched Samples.one_broken) init).2 = frames init.
Proof.
  apply (telemetry_error_aborts Samples.one_broken FPS init "44"
           Samples.lap_ham_broken ProviderError).
  - vm_compute. apply list_elem_of_further, list_elem_of_here.
  - vm_compute. apply list_elem_of_here.
  - reflexivity.
Defined.

(** C4 as stated fails: with telemetry for VER and a failing fetch for HAM,
    the synthesis raises and no frame is produced, although VER alone gives
    three frames. *)
Lemma telemetry_error_not_isolated :
  stream_times Samples.one_broken "1" = [0; 1 # 10]%Q
  ∧ get_telemetry Samples.lap_ham_broken = Raise ProviderError
  ∧ process_frames Samples.one_broken FPS init = (Raise ProviderError, init)
  ∧ (load_and_process (Fetched Samples.one_broken) init).1 = Raise ProviderError
  ∧ frames (load_and_process (Fetched Samples.one_broken) init).2 = []
  ∧ length (frames (load_and_process
                      (Fetched (without_driver Samples.one_broken "44")) init).2)
    = 3%nat.
Proof. split_and!; vm_compute; reflexivity. Qed.






(** ** The synthesized frames *)

Lemma np_arange_length (start stop step : Q) :
  length (Num.np_arange start stop step) = Num.arange_len start stop step.
Proof. unfold Num.np_arange. by rewrite length_map, length_seq. Qed.

Lemma np_arange_lookup (start stop step : Q) (k : nat) (t : Q) :
  Num.np_arange start stop step !! k = Some t ↔
  (k < Num.arange_len start stop step)%nat
  ∧ t = (start + inject_Z (Z.of_nat k) * step)%Q.
Proof.
  unfold Num.np_arange. rewrite list_lookup_fmap. split.
  - intros H. apply fmap_Some in H as (i & Hi & ->).
    apply lookup_seq in Hi as [-> ?]. done.
  - intros [Hk ->]. by rewrite lookup_seq_lt.
Qed.

(** What a frame carries when [_process_frames] succeeds: frame [k] is built
    at the step [t_min + k * dt], from the collected streams, the track held
    before the call and the weather table. *)
Lemma process_frames_ok (s : Session) (fps : Z) (p p' : Processor) :
  process_frames s fps p = (Ok tt, p') →
  ∃ c dt t_min t_max,
    collect_drivers s (drivers s) collected_init = Ok c
    ∧ frame_dt fps = Ok dt
    ∧ global_t_min c = Some t_min
    ∧ global_t_max c = Some t_max
    ∧ session p' = session p
    ∧ driver_colors p' = driver_colors p
    ∧ track_coords p' = track_coords p
    ∧ length (frames p') = Num.arange_len t_min t_max dt
    ∧ ∀ k f, frames p' !! k = Some f →
        let t := (t_min + inject_Z (Z.of_nat k) * dt)%Q in
        f_t f = Num.py_round (t - t_min) 3
        ∧ f_drivers f = driver_at (track_coords p) t <$> all_data c
        ∧ f_weather f = match weather_data s with
                        | None | Some [] => None
                        | Some w => weather_at w t
                        end.
Proof.
  rewrite process_frames_unfold.
  destruct (collect_drivers _ _ _) as [c|] eqn:Hc; [|done].
  destruct (frame_dt fps) as [dt|] eqn:Hdt; [|done].
  unfold make_timeline.
  destruct (global_t_min c) as [t_min|] eqn:Hmin; [|by destruct (global_t_max c)].
  destruct (global_t_max c) as [t_max|] eqn:Hmax; [|done].
  intros Hw. exists c, dt, t_min, t_max.
  set (tl := Num.np_arange t_min t_max dt) in *.
  assert (Hb : ∀ k f, build_frames (track_coords p) c tl !! k = Some f →
                 (k < Num.arange_len t_min t_max dt)%nat
                 ∧ tl !! k = Some (t_min + inject_Z (Z.of_nat k) * dt)%Q
                 ∧ f = build_frame (track_coords p) c t_min
                         (t_min + inject_Z (Z.of_nat k) * dt)%Q).
  { intros k f. unfold build_frames. rewrite Hmin, list_lookup_fmap.
    intros H. apply fmap_Some in H as (t & Ht & ->).
    pose proof Ht as Ht'. apply np_arange_lookup in Ht' as [? ->]. done. }
  assert (Hlen : length (build_frames (track_coords p) c tl)
                 = Num.arange_len t_min t_max dt).
  { unfold build_frames, tl. by rewrite Hmin, length_map, np_arange_length. }
  unfold add_weather_to_frames, ret, modify in Hw.
  destruct (weather_data s) as [[|w ws]|]; simplify_eq/=.
  - split_and!; try done. intros k f Hf.
    apply Hb in Hf as (_ & _ & ->). done.
  - split_and!; try done.
    + unfold weathered. rewrite length_zip_with, Hlen. unfold tl.
      rewrite np_arange_length. lia.
    + intros k f Hf. unfold weathered in Hf.
      apply lookup_zip_with_Some in Hf as (t & f0 & -> & Ht & Hf0).
      apply Hb in Hf0 as (_ & Ht' & ->). simplify_eq. done.
  - split_and!; try done. intros k f Hf.
    apply Hb in Hf as (_ & _ & ->). done.
Qed.

(** The timestamps a driver contributes are those of its laps, in order. *)
Lemma collect_laps_times (ls : list Lap) (arrays arrays' : Arrays) :
  collect_laps ls arrays = Ok arrays' →
  a_t arrays' = a_t arrays ++ concat (map lap_times ls).
Proof.
  revert arrays. induction ls as [|l ls IH]; intros arrays H.
  - cbn in H. simplify_eq. by rewrite app_nil_r.
  - cbn [collect_laps] in H. cbn [map concat]. unfold lap_times at 1.
    destruct (get_telemetry l) as [[|r tel]|e]; [| |done].
    + by apply IH.
    + apply IH in H. rewrite H. cbn [extend_arrays a_t]. by rewrite <- app_assoc.
Qed.

(** Every key of [all_data] is the code of a listed driver with at least one
    sample. *)
Lemma collect_drivers_keys (s : Session) (ds : list string) (c c' : Collected)
    (code : string) :
  collect_drivers s ds c = Ok c' →
  is_Some (all_data c' !! code) →
  is_Some (all_data c !! code)
  ∨ ∃ d, d ∈ ds ∧ get_driver s d = code ∧ stream_times s d ≠ [].
Proof.
  revert c. induction ds as [|d ds IH]; intros c Hc Hsome.
  - cbn in Hc. simplify_eq. by left.
  - cbn [collect_drivers] in Hc.
    assert (Hrest : ∀ c0, collect_drivers s ds c0 = Ok c' →
              is_Some (all_data c0 !! code)
              ∨ ∃ d0, d0 ∈ d :: ds ∧ get_driver s d0 = code ∧ stream_times s d0 ≠ []).
    { intros c0 H0. destruct (IH c0 H0 Hsome) as [?|(d0 & ? & ? & ?)]; [by left|].
      right. exists d0. split; [by apply list_elem_of_further|done]. }
    destruct (pick_drivers s d) as [|l ls] eqn:Hp; [by apply Hrest|].
    destruct (collect_laps (l :: ls) empty_arrays) as [arrays|] eqn:Hl; [|done].
    apply collect_laps_times in Hl. cbn [empty_arrays a_t app] in Hl.
    destruct (a_t arrays) as [|t0 ts] eqn:Ht; [by apply Hrest|].
    destruct (Hrest _ Hc) as [Hin|?]; [|by right].
    unfold record_driver in Hin. rewrite Ht in Hin. cbn in Hin.
    destruct (decide (get_driver s d = code)) as [Heq|Hne].
    + right. exists d. split_and!; [apply list_elem_of_here|done|].
      unfold stream_times. rewrite Hp, <- Hl. done.
    + left. by rewrite lookup_insert_ne in Hin.
Qed.

(** ** Indices stay in range *)

Lemma extend_arrays_aligned (arrays : Arrays) (lap : Lap) (tel : list TelRow) :
  aligned arrays → aligned (extend_arrays arrays lap tel).
Proof.
  unfold aligned. cbn. intros H.
  rewrite !length_app, !length_map, !length_replicate. lia.
Qed.

Lemma collect_laps_aligned (ls : list Lap) (arrays arrays' : Arrays) :
  collect_laps ls arrays = Ok arrays' → aligned arrays → aligned arrays'.
Proof.
  revert arrays. induction ls as [|l ls IH]; intros arrays H Ha.
  - cbn in H. by simplify_eq.
  - cbn [collect_laps] in H. destruct (get_telemetry l) as [[|r tel]|e]; [| |done].
    + by apply IH with arrays.
    + apply IH in H; [done|]. by apply extend_arrays_aligned.
Qed.

(** Every stream kept in [all_data] is aligned and has a sample, so the index
    resolved for it at any time is in range for each of its arrays and the
    defaults in [snapshot] are never read. *)
Lemma collect_drivers_aligned (s : Session) (ds : list string) (c c' : Collected) :
  collect_drivers s ds c = Ok c' →
  (∀ code data, all_data c !! code = Some data → aligned data ∧ a_t data ≠ []) →
  ∀ code data, all_data c' !! code = Some data →
    aligned data ∧ a_t data ≠ []
    ∧ ∀ t, (Num.lookup_index (a_t data) t < length (a_t data))%nat.
Proof.
  revert c. induction ds as [|d ds IH]; intros c Hc Hall.
  - intros code data Hd. cbn in Hc. simplify_eq.
    destruct (Hall _ _ Hd) as [Ha Hne].
    split; [done|split; [done|]]. intros t. unfold Num.lookup_index.
    destruct (a_t data); [done|cbn; lia].
  - cbn [collect_drivers] in Hc.
    destruct (pick_drivers s d) as [|l ls]; [by apply (IH c)|].
    destruct (collect_laps (l :: ls) empty_arrays) as [arrays|] eqn:Hl; [|done].
    destruct (a_t arrays) as [|t0 ts] eqn:Ht; [by apply (IH c)|].
    apply (IH (record_driver (get_driver s d) arrays c)); [done|].
    intros code' data'. unfold record_driver. rewrite Ht. cbn.
    destruct (decide (get_driver s d = code')) as [->|Hne].
    + rewrite lookup_insert_eq. intros [= <-]. split; [|by rewrite Ht].
      apply (collect_laps_aligned _ _ _ Hl). unfold aligned. by cbn.
    + rewrite lookup_insert_ne by done. apply Hall.
Qed.

(** ** A driver without telemetry *)

Lemma collect_drivers_without (s : Session) (d : string) (ds : list string)
    (c : Collected) :
  collect_drivers (without_driver s d) ds c = collect_drivers s ds c.
Proof.
  revert c. induction ds as [|x ds IH]; intros c; [done|].
  cbn [collect_drivers].
  change (pick_drivers (without_driver s d) x) with (pick_drivers s x).
  change (get_driver (without_driver s d) x) with (get_driver s x).
  destruct (pick_drivers s x) as [|l ls]; [apply IH|].
  destruct (collect_laps (l :: ls) empty_arrays) as [arrays|]; [|done].
  destruct (a_t arrays); apply IH.
Qed.

Lemma collect_drivers_filter (s : Session) (d : string) (ds : list string)
    (c : Collected) :
  (∀ lap, lap ∈ pick_drivers s d → get_telemetry lap = Ok []) →
  collect_drivers s (filter (λ n, n ≠ d) ds) c = collect_drivers s ds c.
Proof.
  intros Hsilent. revert c. induction ds as [|x ds IH]; intros c; [done|].
  rewrite filter_cons. destruct (decide (x ≠ d)) as [Hne|Heq].
  - cbn [collect_drivers].
    destruct (pick_drivers s x) as [|l ls]; [apply IH|].
    destruct (collect_laps (l :: ls) empty_arrays) as [arrays|]; [|done].
    destruct (a_t arrays); apply IH.
  - apply dec_stable in Heq as ->. rewrite collect_drivers_skip by done. apply IH.
Qed.

Lemma process_frames_without (s : Session) (d : string) (fps : Z) (p : Processor) :
  (∀ lap, lap ∈ pick_drivers s d → get_telemetry lap = Ok []) →
  process_frames (without_driver s d) fps p = process_frames s fps p.
Proof.
  intros Hsilent. rewrite !process_frames_unfold.
  rewrite collect_drivers_without.
  change (drivers (without_driver s d)) with (filter (λ n, n ≠ d) (drivers s)).
  by rewrite collect_drivers_filter.
Qed.

(** [_process_frames] neither reads nor writes [self.session]. *)
Lemma process_frames_session (s : Session) (fps : Z) (r : SessionRef) (p : Processor) :
  process_frames s fps (set_session r p)
  = ((process_frames s fps p).1, set_session r (process_frames s fps p).2).
Proof.
  rewrite !process_frames_unfold.
  destruct (collect_drivers _ _ _); [|done].
  destruct (frame_dt fps); [|done].
  destruct (make_timeline _ _); [|done].
  unfold add_weather_to_frames, ret, modify.
  by destruct (weather_data s) as [[|w ws]|].
Qed.

Lemma load_fetched_session (s : Session) (p : Processor) :
  let q := set_track_coords (extracted_track s)
             (set_driver_colors (extracted_colors s) p) in
  load_and_process (Fetched s) p =
  match (process_frames s FPS q).1 with
  | Raise e => (Raise e, set_session (Loaded s) (process_frames s FPS q).2)
  | Ok _ =>
      match session_total_laps s with
      | Raise e => (Raise e, set_session (Loaded s) (process_frames s FPS q).2)
      | Ok n => (Ok (summary_of n (process_frames s FPS q).2),
                 set_session (Loaded s) (process_frames s FPS q).2)
      end
  end.
Proof.
  intros q. rewrite load_fetched_unfold. cbv zeta.
  change (set_track_coords _ (set_driver_colors _ (set_session _ p)))
    with (set_session (Loaded s) q).
  rewrite process_frames_session.
  destruct (process_frames s FPS q) as [[[]|e] p2]; cbn [fst snd]; [|done].
  by destruct (session_total_laps s).
Qed.

Lemma elem_of_keys {V} (m : gmap string V) (x : string) :
  x ∈ (map_to_list m).*1 ↔ is_Some (m !! x).
Proof.
  rewrite list_elem_of_fmap. split.
  - intros ([k v] & -> & H). apply elem_of_map_to_list in H. eauto.
  - intros [v H]. exists (x, v). split; [done|]. by apply elem_of_map_to_list.
Qed.

(** C5 (amended). A driver none of whose laps has a telemetry row changes
    nothing in the synthesis: [_process_frames] and [load_and_process] give
    what they give for the session without that driver, so the snapshots of
    the other drivers are unaffected, and after a successful load a code is a
    key of a frame's driver map only if a listed driver with that code has at
    least one sample. The [drivers] list of the summary is the list of keys of
    the colour table, whatever telemetry the drivers have. *)
Theorem silent_driver_excluded (s : Session) (d : string) (p : Processor) :
  (∀ lap, lap ∈ pick_drivers s d → get_telemetry lap = Ok []) →
  stream_times s d = []
  ∧ (∀ fps, process_frames (without_driver s d) fps p = process_frames s fps p)
  ∧ (load_and_process (Fetched (without_driver s d)) p).1
    = (load_and_process (Fetched s) p).1
  ∧ frames (load_and_process (Fetched (without_driver s d)) p).2
    = frames (load_and_process (Fetched s) p).2
  ∧ ∀ sm, (load_and_process (Fetched s) p).1 = Ok sm →
      (∀ f code, f ∈ frames (load_and_process (Fetched s) p).2 →
         is_Some (f_drivers f !! code) →
         ∃ d', d' ∈ drivers s ∧ get_driver s d' = code ∧ stream_times s d' ≠ [])
      ∧ (∀ x, x ∈ sm_drivers sm ↔ is_Some (extracted_colors s !! x)).
Proof.
  intros Hsilent. split_and!.
  - unfold stream_times.
    induction (pick_drivers s d) as [|l ls IH]; [done|].
    cbn [map concat]. unfold lap_times at 1.
    rewrite (Hsilent l) by apply list_elem_of_here. cbn [map app].
    apply IH. intros lap Hl. by apply Hsilent, list_elem_of_further.
  - intros fps. by apply process_frames_without.
  - rewrite !load_fetched_session. cbv zeta.
    change (extracted_track (without_driver s d)) with (extracted_track s).
    change (extracted_colors (without_driver s d)) with (extracted_colors s).
    change (session_total_laps (without_driver s d)) with (session_total_laps s).
    rewrite process_frames_without by done.
    destruct (process_frames s FPS _) as [[[]|e] p2]; cbn [fst snd]; [|done].
    by destruct (session_total_laps s).
  - rewrite !load_fetched_session. cbv zeta.
    change (extracted_track (without_driver s d)) with (extracted_track s).
    change (extracted_colors (without_driver s d)) with (extracted_colors s).
    change (session_total_laps (without_driver s d)) with (session_total_laps s).
    rewrite process_frames_without by done.
    destruct (process_frames s FPS _) as [[[]|e] p2]; cbn [fst snd]; [|done].
    by destruct (session_total_laps s).
  - intros sm. rewrite load_fetched_session. cbv zeta.
    destruct (process_frames s FPS _) as [[[]|e] p2] eqn:Hp; cbn [fst snd]; [|done].
    destruct (session_total_laps s) as [n|]; [|done].
    intros [= <-]. cbn [snd].
    apply process_frames_ok in Hp
      as (c & dt & t_min & t_max & Hc & _ & _ & _ & _ & Hcol & _ & _ & Hfr).
    split.
    + intros f code Hf Hsome. change (frames (set_session _ p2)) with (frames p2) in Hf.
      apply list_elem_of_lookup in Hf as [k Hk].
      apply Hfr in Hk as (_ & Hd & _). rewrite Hd, lookup_fmap in Hsome.
      apply fmap_is_Some in Hsome.
      destruct (collect_drivers_keys _ _ _ _ code Hc Hsome) as [Hin|?]; [|done].
      cbn in Hin. rewrite lookup_empty in Hin. by destruct Hin.
    + intros x. cbn [summary_of sm_drivers]. rewrite elem_of_keys, Hcol. done.
Qed.

Lemma silent_driver_excluded_witness :
  stream_times Samples.one_silent "44" = []
  ∧ frames (load_and_process (Fetched (without_driver Samples.one_silent "44")) init).2
    = frames (load_and_process (Fetched Samples.one_silent) init).2.
Proof.
  destruct (silent_driver_excluded Samples.one_silent "44" init)
    as (H1 & _ & _ & H2 & _).
  - intros lap Hlap. vm_compute in Hlap.
    apply list_elem_of_singleton in Hlap as ->. reflexivity.
  - split; [exact H1|exact H2].
Defined.

(** C5 as stated fails for the summary: HAM has no telemetry row and is in no
    frame, yet it is listed in [drivers], which are the keys of the colour
    table. *)
Lemma silent_driver_listed :
  stream_times Samples.one_silent "44" = []
  ∧ Samples.code_of "44" = "HAM"%string
  ∧ Forall (λ f, f_drivers f !! "HAM"%string = None) (frames Samples.loaded)
  ∧ match (load_and_process (Fetched Samples.one_silent) init).1 with
    | Ok sm => "HAM"%string ∈ sm_drivers sm
    | Raise _ => False
    end.
Proof.
  split_and!; try (vm_compute; reflexivity).
  - vm_compute. repeat constructor.
  - vm_compute. apply list_elem_of_further, list_elem_of_here.
Qed.

(** ** Rounding and the time grid *)

Section Grid.
Import Num.
Local Open Scope Q_scope.









Lemma Qmin_cases (a b : Q) : (Qmin a b = a ∧ a <= b) ∨ (Qmin a b = b ∧ b <= a).
Proof.
  unfold Qmin, GenericMinMax.gmin.
  destruct (Qcompare_spec a b) as [E|L|G].
  - left. split; [done|]. rewrite E. apply Qle_refl.
  - left. split; [done|]. by apply Qlt_le_weak.
  - right. split; [done|]. by apply Qlt_le_weak.
Qed.

Lemma Qmax_cases (a b : Q) : (Qmax a b = a ∧ b <= a) ∨ (Qmax a b = b ∧ a <= b).
Proof.
  unfold Qmax, GenericMinMax.gmax.
  destruct (Qcompare_spec a b) as [E|L|G].
  - left. split; [done|]. rewrite E. apply Qle_refl.
  - right. split; [done|]. by apply Qlt_le_weak.
  - left. split; [done|]. by apply Qlt_le_weak.
Qed.

Lemma foldl_Qmin_spec (r : list Q) (x : Q) :
  foldl Qmin x r ∈ x :: r ∧ ∀ t, t ∈ x :: r → foldl Qmin x r <= t.
Proof.
  revert x. induction r as [|y r IH]; intros x.
  - cbn. split; [apply list_elem_of_here|].
    intros t Ht. apply list_elem_of_singleton in Ht as ->. apply Qle_refl.
  - cbn [foldl]. destruct (IH (Qmin x y)) as [Hin Hlb]. split.
    + apply elem_of_cons in Hin as [Hm|Hin].
      * rewrite Hm. destruct (Qmin_cases x y) as [[-> _]|[-> _]].
        -- apply list_elem_of_here.
        -- apply list_elem_of_further, list_elem_of_here.
      * by do 2 apply list_elem_of_further.
    + intros t Ht.
      assert (Hxy : foldl Qmin (Qmin x y) r <= Qmin x y)
        by apply Hlb, list_elem_of_here.
      apply elem_of_cons in Ht as [->|Ht]; [|apply elem_of_cons in Ht as [->|Ht]].
      * eapply Qle_trans; [exact Hxy|apply Q.le_min_l].
      * eapply Qle_trans; [exact Hxy|apply Q.le_min_r].
      * by apply Hlb, list_elem_of_further.
Qed.

Lemma foldl_Qmax_spec (r : list Q) (x : Q) :
  foldl Qmax x r ∈ x :: r ∧ ∀ t, t ∈ x :: r → t <= foldl Qmax x r.
Proof.
  revert x. induction r as [|y r IH]; intros x.
  - cbn. split; [apply list_elem_of_here|].
    intros t Ht. apply list_elem_of_singleton in Ht as ->. apply Qle_refl.
  - cbn [foldl]. destruct (IH (Qmax x y)) as [Hin Hub]. split.
    + apply elem_of_cons in Hin as [Hm|Hin].
      * rewrite Hm. destruct (Qmax_cases x y) as [[-> _]|[-> _]].
        -- apply list_elem_of_here.
        -- apply list_elem_of_further, list_elem_of_here.
      * by do 2 apply list_elem_of_further.
    + intros t Ht.
      assert (Hxy : Qmax x y <= foldl Qmax (Qmax x y) r)
        by apply Hub, list_elem_of_here.
      apply elem_of_cons in Ht as [->|Ht]; [|apply elem_of_cons in Ht as [->|Ht]].
      * eapply Qle_trans; [apply Q.le_max_l|exact Hxy].
      * eapply Qle_trans; [apply Q.le_max_r|exact Hxy].
      * by apply Hub, list_elem_of_further.
Qed.

Lemma np_min_spec (l : list Q) (m : Q) :
  np_min l = Some m → m ∈ l ∧ ∀ t, t ∈ l → m <= t.
Proof. destruct l as [|x r]; [done|]. intros [= <-]. apply foldl_Qmin_spec. Qed.

Lemma np_max_spec (l : list Q) (m : Q) :
  np_max l = Some m → m ∈ l ∧ ∀ t, t ∈ l → t <= m.
Proof. destruct l as [|x r]; [done|]. intros [= <-]. apply foldl_Qmax_spec. Qed.

End Grid.

(** ** The timeline *)

Section Timeline.
Local Open Scope Q_scope.





Lemma frame_dt_FPS : frame_dt FPS = Ok (1 / inject_Z FPS).
Proof. reflexivity. Qed.



End Timeline.

(** ** Track geometry *)

Section Track.
Local Open Scope Q_scope.








End Track.

(** ** Tyre stints *)

Section Stints.
Local Open Scope Z_scope.

Lemma contiguous_snoc (a b : Z) (l : list Stint) (s : Stint) :
  contiguous a l b → start_lap s = b + 1 → start_lap s ≤ end_lap s →
  contiguous a (l ++ [s]) (end_lap s).
Proof.
  revert a. induction l as [|x l IH]; intros a Hc Hs Hle.
  - cbn in *. split_and!; [lia|done|lia].
  - cbn in *. destruct Hc as (? & ? & ?). split_and!; [done|done|by apply IH].
Qed.

Lemma contiguous_bounds (a b : Z) (l : list Stint) :
  contiguous a l b →
  a - 1 ≤ b
  ∧ ∀ s, s ∈ l → a ≤ start_lap s ∧ start_lap s ≤ end_lap s ∧ end_lap s ≤ b.
Proof.
  revert a. induction l as [|x l IH]; intros a Hc.
  - cbn in Hc. split; [lia|]. intros s Hs. by apply elem_of_nil in Hs.
  - cbn in Hc. destruct Hc as (Hx & Hle & Hc).
    destruct (IH _ Hc) as [Hb Hall]. split; [lia|].
    intros s Hs. apply elem_of_cons in Hs as [->|Hs]; [lia|].
    specialize (Hall s Hs). lia.
Qed.

(** Every lap of the range lies in a stint. *)
Lemma contiguous_cover (a b : Z) (l : list Stint) :
  contiguous a l b →
  ∀ k, a ≤ k ≤ b → ∃ s, s ∈ l ∧ start_lap s ≤ k ≤ end_lap s.
Proof.
  revert a. induction l as [|x l IH]; intros a Hc k Hk.
  - cbn in Hc. lia.
  - cbn in Hc. destruct Hc as (Hx & Hle & Hc).
    destruct (decide (k ≤ end_lap x)) as [Hin|Hout].
    + exists x. split; [apply list_elem_of_here|lia].
    + destruct (IH _ Hc k) as (s & Hs & Hr); [lia|].
      exists s. split; [by apply list_elem_of_further|done].
Qed.

(** Stints come in the order of their laps and do not overlap. *)
Lemma contiguous_order (a b : Z) (l : list Stint) :
  contiguous a l b →
  ∀ (i j : nat) si sj, (i < j)%nat → l !! i = Some si → l !! j = Some sj →
    end_lap si < start_lap sj.
Proof.
  revert a. induction l as [|x l IH]; intros a Hc i j si sj Hij Hi Hj; [done|].
  cbn in Hc. destruct Hc as (Hx & Hle & Hc).
  destruct j as [|j]; [lia|]. cbn in Hj.
  destruct i as [|i]; cbn in Hi.
  - simplify_eq. destruct (contiguous_bounds _ _ _ Hc) as [_ Hall].
    specialize (Hall sj (list_elem_of_lookup_2 _ _ _ Hj)). lia.
  - apply (IH _ Hc i j); [lia|done..].
Qed.

Lemma contiguous_last (a b : Z) (l : list Stint) :
  contiguous a l b → l ≠ [] → ∃ s, last l = Some s ∧ end_lap s = b.
Proof.
  revert a. induction l as [|x l IH]; intros a Hc Hne; [done|].
  cbn in Hc. destruct Hc as (Hx & Hle & Hc).
  destruct l as [|y l].
  - cbn in Hc. exists x. split; [done|lia].
  - destruct (IH _ Hc) as (s & Hs & He); [done|]. exists s. split; [|done].
    by rewrite last_cons, Hs.
Qed.

Lemma truthy_Some (c : string) : c ≠ EmptyString → truthy (Some c) = true.
Proof. by destruct c. Qed.

Lemma differs_Some (c c' : string) :
  differs c' (Some c) = negb (bool_decide (c' = c)).
Proof.
  cbn. f_equal. destruct (String.eqb_spec c' c).
  - by rewrite bool_decide_eq_true_2.
  - by rewrite bool_decide_eq_false_2.
Qed.

Lemma compound_at_snoc_old (seen : list Lap) (lap : Lap) (k : Z) :
  k ≤ Z.of_nat (length seen) →
  compound_at (seen ++ [lap]) k = compound_at seen k.
Proof.
  intros Hk. unfold compound_at. destruct (1 <=? k) eqn:E; [|done].
  apply Z.leb_le in E. by rewrite lookup_app_l by lia.
Qed.

Lemma compound_at_snoc_new (seen : list Lap) (lap : Lap) :
  compound_at (seen ++ [lap]) (Z.of_nat (length seen) + 1) = Some (Compound lap).
Proof.
  unfold compound_at. rewrite (proj2 (Z.leb_le _ _)) by lia.
  replace (Z.to_nat _) with (length seen) by lia.
  by rewrite list_lookup_middle.
Qed.

(** One turn of the loop keeps the invariant. *)
Lemma stint_step_invariant (seen : list Lap) (st : StintLoop) (lap : Lap) :
  stint_invariant seen st →
  LapNumber lap = Z.of_nat (length seen) + 1 →
  Compound lap ≠ EmptyString →
  stint_invariant (seen ++ [lap]) (stint_step st lap).
Proof.
  intros [[-> ->]|[Hne (c & Hcur & Hc & Hstart & Hcont & Hseg & Hst & Hbd)]] Hn Hcomp;
    right; (split; [intros Hnil; by apply app_eq_nil in Hnil as [_ ?]|]).
  - exists (Compound lap). cbn in *. rewrite Hn.
    split_and!; try done; try lia.
    + intros k Hk. assert (k = 1) as -> by lia. done.
    + intros s k Hs. by apply elem_of_nil in Hs.
  - rewrite length_app. cbn [length].
    set (i := Z.of_nat (length seen)) in *.
    replace (Z.of_nat (length seen + 1)) with (i + 1) by lia.
    destruct (contiguous_bounds _ _ _ Hcont) as [_ Hin].
    assert (Hi : 1 ≤ i) by (destruct seen; [done|cbn in i; lia]).
    assert (Hprev : compound_at (seen ++ [lap]) i = Some c).
    { rewrite compound_at_snoc_old by lia. apply Hseg. lia. }
    assert (Hnew : compound_at (seen ++ [lap]) (i + 1) = Some (Compound lap))
      by apply compound_at_snoc_new.
    unfold stint_step. rewrite Hcur, differs_Some.
    destruct (decide (Compound lap = c)) as [Heq|Hdiff].
    + rewrite bool_decide_eq_true_2 by done. cbn [negb].
      exists c. split_and!; try done; try lia.
      * intros k Hk. destruct (decide (k = i + 1)) as [->|?].
        -- by rewrite Hnew, Heq.
        -- rewrite compound_at_snoc_old by lia. apply Hseg. lia.
      * intros s k Hs Hk. specialize (Hin s Hs).
        rewrite compound_at_snoc_old by lia. by apply Hst.
      * intros k Hk. destruct (decide (k = i + 1)) as [->|?].
        -- replace (i + 1 - 1) with i by lia. rewrite Hnew, Hprev, Heq.
           split; [|intros [?|?]; [lia|done]].
           intros [?|(s & Hs & Hk')]; [lia|].
           specialize (Hin s Hs). lia.
        -- rewrite !compound_at_snoc_old by lia. apply Hbd. lia.
    + rewrite bool_decide_eq_false_2 by done. cbn [negb].
      cbn [stints current_compound stint_start]. rewrite Hn.
      unfold close_stint. rewrite Hcur, truthy_Some by done.
      replace (i + 1 - 1) with i by lia.
      exists (Compound lap). split_and!; try done; try lia.
      * apply (contiguous_snoc 1 (stint_start st - 1) (stints st)
                 {| compound := c; start_lap := stint_start st; end_lap := i |});
          cbn; [done|lia|lia].
      * intros k Hk. assert (k = i + 1) as -> by lia. done.
      * intros s k Hs Hk. apply elem_of_app in Hs as [Hs|Hs].
        -- specialize (Hin s Hs). rewrite compound_at_snoc_old by lia.
           by apply Hst.
        -- apply list_elem_of_singleton in Hs as ->. cbn in *.
           rewrite compound_at_snoc_old by lia. by apply Hseg.
      * intros k Hk. destruct (decide (k = i + 1)) as [->|?].
        -- replace (i + 1 - 1) with i by lia. rewrite Hnew, Hprev.
           split; [|by left]. intros _. right. congruence.
        -- rewrite !compound_at_snoc_old by lia.
           rewrite <- (Hbd k) by lia. split.
           ++ intros [?|(s & Hs & Hk')]; [lia|].
              apply elem_of_app in Hs as [Hs|Hs]; [right; eauto|].
              apply list_elem_of_singleton in Hs as ->. by left.
           ++ intros [->|(s & Hs & Hk')]; right.
              ** eexists. split; [apply elem_of_app; right;
                                  apply list_elem_of_singleton; reflexivity|done].
              ** exists s. split; [apply elem_of_app; by left|done].
Qed.

(** The whole loop keeps the invariant. *)
Lemma stint_loop_invariant (rest seen : list Lap) (st : StintLoop) :
  stint_invariant seen st →
  LapNumber <$> seen ++ rest = Z.of_nat <$> seq 1 (length (seen ++ rest)) →
  (∀ lap, lap ∈ rest → Compound lap ≠ EmptyString) →
  stint_invariant (seen ++ rest) (foldl stint_step st rest).
Proof.
  revert seen st. induction rest as [|lap rest IH]; intros seen st Hinv Hnum Hcomp.
  - by rewrite app_nil_r.
  - cbn [foldl]. rewrite cons_middle, app_assoc.
    apply IH.
    + apply stint_step_invariant; [done| |apply Hcomp, list_elem_of_here].
      apply (f_equal (λ l, l !! length seen)) in Hnum.
      rewrite !list_lookup_fmap, list_lookup_middle in Hnum by done.
      rewrite lookup_seq_lt in Hnum by (rewrite length_app; cbn; lia).
      cbn in Hnum. injection Hnum as ->. lia.
    + by rewrite <- app_assoc, <- cons_middle.
    + intros l Hl. by apply Hcomp, list_elem_of_further.
Qed.

Lemma Sorted_seq_Z (a n : nat) : Sorted Z.le (Z.of_nat <$> seq a n).
Proof.
  revert a. induction n as [|n IH]; intros a; [constructor|].
  cbn. constructor; [apply IH|].
  destruct n; cbn; constructor. lia.
Qed.

#[local] Instance lap_le_total : Total lap_le.
Proof. intros a b. unfold lap_le. lia. Qed.

(** Sorting puts the rows of a driver numbered 1 to [n] in that order. *)
Lemma driver_laps_numbers (tbl : list Lap) (driver : string) (n : nat) :
  LapNumber <$> filter (λ lap, Driver lap = driver) tbl ≡ₚ Z.of_nat <$> seq 1 n →
  LapNumber <$> driver_laps tbl driver = Z.of_nat <$> seq 1 n.
Proof.
  intros Hperm. apply (Sorted_unique Z.le).
  - apply (Sorted_fmap _ lap_le); [done|]. apply Sorted_merge_sort, _.
  - apply Sorted_seq_Z.
  - unfold driver_laps. by rewrite merge_sort_Permutation.
Qed.

Lemma foldl_Zmax_spec (r : list Z) (x : Z) :
  foldl Z.max x r ∈ x :: r ∧ ∀ t, t ∈ x :: r → t ≤ foldl Z.max x r.
Proof.
  revert x. induction r as [|y r IH]; intros x.
  - cbn. split; [apply list_elem_of_here|].
    intros t Ht. apply list_elem_of_singleton in Ht as ->. lia.
  - cbn [foldl]. destruct (IH (Z.max x y)) as [Hin Hub]. split.
    + apply elem_of_cons in Hin as [Hm|Hin].
      * rewrite Hm. destruct (Z.max_spec x y) as [[_ ->]|[_ ->]].
        -- apply list_elem_of_further, list_elem_of_here.
        -- apply list_elem_of_here.
      * by do 2 apply list_elem_of_further.
    + intros t Ht.
      assert (Hxy : Z.max x y ≤ foldl Z.max (Z.max x y) r)
        by apply Hub, list_elem_of_here.
      apply elem_of_cons in Ht as [->|Ht]; [|apply elem_of_cons in Ht as [->|Ht]];
        [lia|lia|by apply Hub, list_elem_of_further].
Qed.

Lemma max_lap_numbers (ls : list Lap) (n : nat) :
  (1 ≤ n)%nat → LapNumber <$> ls = Z.of_nat <$> seq 1 n →
  max_lap ls = Z.of_nat n.
Proof.
  intros Hn Hnum. unfold max_lap.
  change (map LapNumber ls) with (LapNumber <$> ls). rewrite Hnum.
  destruct (Z.of_nat <$> seq 1 n) as [|x r] eqn:E.
  { destruct n; [lia|done]. }
  destruct (foldl_Zmax_spec r x) as [Hin Hub]. rewrite <- E in Hin, Hub.
  apply Z.le_antisymm.
  - apply list_elem_of_fmap in Hin as (m & -> & Hm).
    apply elem_of_seq in Hm. lia.
  - apply Hub, list_elem_of_fmap. exists n. split; [done|].
    apply elem_of_seq. lia.
Qed.

(** C8 (amended). For a driver whose rows carry the lap numbers 1 to [n]
    (in any order in the table) and whose compound texts are all non-empty,
    the stints start at lap 1, follow one another without gap or overlap in
    increasing order of [start_lap], cover every lap from 1 to [n], and the
    last one ends at lap [n]; a stint starts at lap [k] exactly when [k] is 1
    or the compound of lap [k] differs from that of lap [k - 1], and every lap
    of a stint has the compound of the stint. *)
Theorem stints_cover_laps (tbl : list Lap) (driver : string) (n : nat) :
  (1 ≤ n)%nat →
  LapNumber <$> filter (λ lap, Driver lap = driver) tbl ≡ₚ Z.of_nat <$> seq 1 n →
  (∀ lap, lap ∈ tbl → Driver lap = driver → Compound lap ≠ EmptyString) →
  LapNumber <$> driver_laps tbl driver = Z.of_nat <$> seq 1 n
  ∧ contiguous 1 (driver_stints (driver_laps tbl driver)) (Z.of_nat n)
  ∧ (∀ k, 1 ≤ k ≤ Z.of_nat n →
       ∃ s, s ∈ driver_stints (driver_laps tbl driver)
            ∧ start_lap s ≤ k ≤ end_lap s)
  ∧ (∀ (i j : nat) si sj, (i < j)%nat →
       driver_stints (driver_laps tbl driver) !! i = Some si →
       driver_stints (driver_laps tbl driver) !! j = Some sj →
       end_lap si < start_lap sj)
  ∧ (∃ s, last (driver_stints (driver_laps tbl driver)) = Some s
          ∧ end_lap s = Z.of_nat n)
  ∧ (∀ k, 1 ≤ k ≤ Z.of_nat n →
       (∃ s, s ∈ driver_stints (driver_laps tbl driver) ∧ start_lap s = k)
       ↔ (k = 1 ∨ compound_at (driver_laps tbl driver) k
                  ≠ compound_at (driver_laps tbl driver) (k - 1)))
  ∧ (∀ s k, s ∈ driver_stints (driver_laps tbl driver) →
       start_lap s ≤ k ≤ end_lap s →
       compound_at (driver_laps tbl driver) k = Some (compound s))
  ∧ (∀ colors sg, sg ∈ tyre_strategies tbl colors → sg_driver sg = driver →
       sg_stints sg = driver_stints (driver_laps tbl driver)).
Proof.
  intros Hn Hperm Hcomp.
  pose proof (driver_laps_numbers tbl driver n Hperm) as Hnum.
  set (ls := driver_laps tbl driver) in *.
  assert (Hlen : length ls = n).
  { apply (f_equal length) in Hnum. by rewrite !length_fmap, length_seq in Hnum. }
  assert (Hcomp' : ∀ lap, lap ∈ ls → Compound lap ≠ EmptyString).
  { intros lap Hl. unfold ls, driver_laps in Hl.
    rewrite merge_sort_Permutation in Hl.
    apply list_elem_of_filter in Hl as [Hd Hl]. by apply Hcomp. }
  assert (Hne : ls ≠ []) by (intros E; rewrite E in Hlen; cbn in Hlen; lia).
  pose proof (stint_loop_invariant ls []
                {| stints := []; current_compound := None; stint_start := 1 |})
    as Hinv.
  cbn [app] in Hinv. rewrite Hlen in Hinv.
  destruct Hinv as [[? _]|[_ (c & Hcur & Hc & Hstart & Hcont & Hseg & Hst & Hbd)]];
    [by left|done|done|done|].
  assert (Hstints : driver_stints ls
            = stints (foldl stint_step
                        {| stints := []; current_compound := None; stint_start := 1 |} ls)
              ++ [{| compound := c;
                     start_lap := stint_start (foldl stint_step
                        {| stints := []; current_compound := None; stint_start := 1 |} ls);
                     end_lap := Z.of_nat n |}]).
  { unfold driver_stints, close_stint. cbv zeta.
    by rewrite Hcur, truthy_Some, (max_lap_numbers ls n Hn Hnum). }
  set (st := foldl stint_step _ ls) in *.
  rewrite Hlen in *.
  assert (Hall : contiguous 1 (driver_stints ls) (Z.of_nat n)).
  { rewrite Hstints.
    apply (contiguous_snoc 1 (stint_start st - 1) (stints st)
             {| compound := c; start_lap := stint_start st; end_lap := Z.of_nat n |});
      cbn; [done|lia|lia]. }
  split_and!.
  - done.
  - done.
  - by apply contiguous_cover.
  - by apply (contiguous_order 1 (Z.of_nat n)).
  - apply (contiguous_last 1); [done|]. rewrite Hstints.
    intros E. by apply app_eq_nil in E as [_ ?].
  - intros k Hk. rewrite <- (Hbd k Hk), Hstints. split.
    + intros (s & Hs & Hk'). apply elem_of_app in Hs as [Hs|Hs]; [right; eauto|].
      apply list_elem_of_singleton in Hs as ->. by left.
    + intros [->|(s & Hs & Hk')].
      * eexists. split; [apply elem_of_app; right;
                         apply list_elem_of_singleton; reflexivity|done].
      * exists s. split; [apply elem_of_app; by left|done].
  - intros s k Hs Hk. rewrite Hstints in Hs. apply elem_of_app in Hs as [Hs|Hs].
    + by apply Hst.
    + apply list_elem_of_singleton in Hs as ->. cbn in *. by apply Hseg.
  - intros colors sg Hsg Hd. unfold tyre_strategies in Hsg.
    apply list_elem_of_fmap in Hsg as (d & -> & _). cbn in *. by subst d.
Qed.

End Stints.

Section StintsExamples.
Local Open Scope Z_scope.

Lemma stints_cover_laps_witness :
  driver_stints (driver_laps Samples.five_laps "VER")
  = [ {| compound := "SOFT"; start_lap := 1; end_lap := 2 |};
      {| compound := "MEDIUM"; start_lap := 3; end_lap := 5 |} ]
  ∧ contiguous 1 (driver_stints (driver_laps Samples.five_laps "VER")) 5.
Proof.
  split; [vm_compute; reflexivity|].
  refine (proj1 (proj2 (stints_cover_laps Samples.five_laps "VER" 5 _ _ _))).
  - lia.
  - change (LapNumber <$> filter (λ lap, Driver lap = "VER"%string) Samples.five_laps)
      with [3; 1; 2; 5; 4].
    change (Z.of_nat <$> seq 1 5) with [1; 2; 3; 4; 5].
    apply (Permutation_trans (l' := [1; 3; 2; 5; 4])); [apply perm_swap|].
    apply perm_skip.
    apply (Permutation_trans (l' := [2; 3; 5; 4])); [apply perm_swap|].
    do 2 apply perm_skip. apply perm_swap.
  - intros lap Hlap _. vm_compute in Hlap.
    repeat (apply elem_of_cons in Hlap as [->|Hlap]; [discriminate|]).
    by apply elem_of_nil in Hlap.
Defined.

(** C8 as stated fails when a compound text is empty: with laps 1 and 2, the
    first on the empty compound, the only stint is lap 2, so lap 1 is in no
    stint and the stints do not start at lap 1. *)
Lemma blank_compound_uncovered :
  LapNumber <$> driver_laps Samples.blank_first "VER" = [1; 2]
  ∧ driver_stints (driver_laps Samples.blank_first "VER")
    = [ {| compound := "SOFT"; start_lap := 2; end_lap := 2 |} ]
  ∧ ¬ contiguous 1 (driver_stints (driver_laps Samples.blank_first "VER")) 2
  ∧ ¬ ∃ s, s ∈ driver_stints (driver_laps Samples.blank_first "VER")
           ∧ start_lap s ≤ 1 ≤ end_lap s.
Proof.
  assert (H : driver_stints (driver_laps Samples.blank_first "VER")
              = [ {| compound := "SOFT"; start_lap := 2; end_lap := 2 |} ])
    by (vm_compute; reflexivity).
  split_and!.
  - vm_compute. reflexivity.
  - exact H.
  - rewrite H. cbn. intros [? _]. discriminate.
  - rewrite H. intros (s & Hs & Hk).
    apply list_elem_of_singleton in Hs as ->. cbn in Hk. lia.
Qed.

End StintsExamples.

(** * Further properties *)

(** ** Windows of frames *)

Lemma get_frames_take_drop (p : Processor) (start stop : Z) :
  (0 ≤ start)%Z → (0 ≤ stop)%Z →
  get_frames p start stop
  = take (Z.to_nat (stop - start)) (drop (Z.to_nat start) (frames p)).
Proof.
  intros Hs He. rewrite get_frames_positions, slice_positions_take_drop.
  unfold from_end. rewrite (proj2 (Z.ltb_ge start 0)) by done.
  rewrite (proj2 (Z.ltb_ge stop 0)) by done.
  do 2 f_equal. lia.
Qed.

(** X1. Adjacent windows join: for [0 ≤ a ≤ b ≤ c] the frames of
    [get_frames(a, b)] followed by those of [get_frames(b, c)] are the frames
    of [get_frames(a, c)], and [get_frames(0, len)] is the whole sequence. *)
Theorem get_frames_adjacent (p : Processor) (a b c : Z) :
  (0 ≤ a ≤ b)%Z → (b ≤ c)%Z →
  get_frames p a b ++ get_frames p b c = get_frames p a c
  ∧ get_frames p 0 (Z.of_nat (length (frames p))) = frames p.
Proof.
  intros Hab Hbc. split.
  - rewrite !get_frames_take_drop by lia.
    replace (Z.to_nat b) with (Z.to_nat a + Z.to_nat (b - a))%nat by lia.
    rewrite <- drop_drop, take_take_drop. f_equal. lia.
  - rewrite get_frames_take_drop by lia. cbn [Z.to_nat drop].
    apply take_ge. lia.
Qed.

Lemma get_frames_adjacent_witness :
  get_frames Samples.loaded 0 1 ++ get_frames Samples.loaded 1 3
  = get_frames Samples.loaded 0 3.
Proof.
  apply (get_frames_adjacent Samples.loaded 0 1 3); lia.
Defined.

(** X2. Whatever the two integers, [get_frames] returns a run of consecutive
    frames of the sequence, and for an index [i ≥ 0] the window
    [get_frames(i, i + 1)] holds exactly the frame [get_frame(i)] finds, or
    nothing when [get_frame(i)] finds none. *)
Theorem get_frames_run (p : Processor) (start stop : Z) :
  (∃ before after, frames p = before ++ get_frames p start stop ++ after)
  ∧ ∀ i, (0 ≤ i)%Z → get_frames p i (i + 1) = option_list (get_frame p i).
Proof.
  split.
  - unfold get_frames, py_slice. cbv zeta.
    set (k := Z.to_nat (adjust_index _ start)).
    set (n := Z.to_nat (_ - _)).
    exists (take k (frames p)), (drop n (drop k (frames p))).
    by rewrite take_drop, take_drop.
  - intros i Hi. rewrite get_frames_take_drop, get_frame_spec by lia.
    replace (Z.to_nat (i + 1 - i)) with 1%nat by lia.
    destruct (decide _) as [Hin|Hout].
    + destruct (lookup_lt_is_Some_2 (frames p) (Z.to_nat i)) as [f Hf]; [lia|].
      rewrite Hf. cbn. by rewrite (drop_S _ _ _ Hf).
    + rewrite drop_ge by lia. done.
Qed.

Lemma get_frames_run_witness :
  get_frames Samples.loaded 2 3 = option_list (get_frame Samples.loaded 2).
Proof.
  apply (proj2 (get_frames_run Samples.loaded 0 0) 2%Z). lia.
Defined.

(** ** A successful load replaces the derived state *)

Lemma process_frames_replaces (s : Session) (fps : Z) (p p' : Processor) :
  process_frames s fps p = (Ok tt, p') →
  ∀ q, track_coords q = track_coords p →
       process_frames s fps q = (Ok tt, set_frames (frames p') q).
Proof.
  rewrite process_frames_unfold. intros H q Hq. rewrite process_frames_unfold.
  destruct (collect_drivers _ _ _) as [c|]; [|done].
  destruct (frame_dt fps) as [dt|]; [|done].
  destruct (make_timeline c dt) as [tl|]; [|done].
  unfold add_weather_to_frames, ret, modify in *. rewrite Hq.
  destruct (weather_data s) as [[|w ws]|]; by simplify_eq/=.
Qed.

(** X3. A successful load does not depend on what the processor held
    before: loading the same session into any other processor succeeds with
    the same summary and leaves the same state, whose session, colour table
    and track are those of the new session and whose summary counts its
    frames. *)
Theorem load_replaces_state (s : Session) (p p' : Processor) (sm : Summary) :
  load_and_process (Fetched s) p = (Ok sm, p') →
  (∀ q, load_and_process (Fetched s) q = (Ok sm, p'))
  ∧ session p' = Loaded s
  ∧ driver_colors p' = extracted_colors s
  ∧ track_coords p' = extracted_track s
  ∧ total_frames sm = length (frames p')
  ∧ sm_driver_colors sm = driver_colors p'
  ∧ sm_track sm = track_coords p'.
Proof.
  rewrite load_fetched_session. cbv zeta.
  destruct (process_frames s FPS _) as [[[]|e] p2] eqn:Hp; cbn [fst snd]; [|done].
  destruct (session_total_laps s) as [n|] eqn:Hn; [|done].
  intros [= <- <-].
  pose proof (process_frames_ok _ _ _ _ Hp)
    as (_ & _ & _ & _ & _ & _ & _ & _ & _ & Hcol & Htc & _).
  split_and!; try done.
  intros q. rewrite load_fetched_session. cbv zeta.
  rewrite (process_frames_replaces _ _ _ _ Hp) by done. cbn [fst snd].
  rewrite Hn.
  assert (Hp2 : p2 = set_frames (frames p2)
                       (set_track_coords (extracted_track s)
                          (set_driver_colors (extracted_colors s) p))).
  { pose proof (process_frames_replaces _ _ _ _ Hp _ eq_refl) as H2.
    rewrite Hp in H2. by injection H2. }
  rewrite Hp2. done.
Qed.

Lemma load_replaces_state_witness :
  load_and_process (Fetched Samples.one_silent) Samples.loaded
  = load_and_process (Fetched Samples.one_silent) init.
Proof.
  destruct (load_replaces_state Samples.one_silent init Samples.loaded
              (summary_of 1 Samples.loaded)) as [H _].
  - vm_compute. reflexivity.
  - rewrite (H Samples.loaded), (H init). reflexivity.
Defined.

(** ** What the frames hold *)

(** A stream that was recorded stays recorded. *)
Lemma collect_drivers_keeps (s : Session) (ds : list string) (c c' : Collected)
    (code : string) :
  collect_drivers s ds c = Ok c' →
  is_Some (all_data c !! code) → is_Some (all_data c' !! code).
Proof.
  revert c. induction ds as [|d ds IH]; intros c Hc Hsome.
  - cbn in Hc. by simplify_eq.
  - cbn [collect_drivers] in Hc.
    destruct (pick_drivers s d) as [|l ls]; [by apply (IH c)|].
    destruct (collect_laps (l :: ls) empty_arrays) as [arrays|]; [|done].
    destruct (a_t arrays) as [|t0 ts] eqn:Ht; [by apply (IH c)|].
    apply (IH _ Hc). unfold record_driver. rewrite Ht. cbn.
    destruct (decide (get_driver s d = code)) as [->|Hne].
    + rewrite lookup_insert_eq. eauto.
    + by rewrite lookup_insert_ne.
Qed.

(** Every listed driver with a sample is recorded under its code. *)
Lemma collect_drivers_records (s : Session) (ds : list string) (c c' : Collected)
    (d : string) :
  collect_drivers s ds c = Ok c' → d ∈ ds → stream_times s d ≠ [] →
  is_Some (all_data c' !! get_driver s d).
Proof.
  revert c. induction ds as [|d0 ds IH]; intros c Hc Hd Hne.
  - by apply elem_of_nil in Hd.
  - cbn [collect_drivers] in Hc.
    destruct (decide (d ∈ ds)) as [Hin|Hnin].
    { destruct (pick_drivers s d0) as [|l ls]; [by apply (IH c)|].
      destruct (collect_laps (l :: ls) empty_arrays) as [arrays|]; [|done].
      destruct (a_t arrays); by eapply IH. }
    apply elem_of_cons in Hd as [->|?]; [|done].
    unfold stream_times in Hne.
    destruct (pick_drivers s d0) as [|l ls]; [done|].
    destruct (collect_laps (l :: ls) empty_arrays) as [arrays|] eqn:Hl; [|done].
    apply collect_laps_times in Hl. cbn [empty_arrays a_t app] in Hl.
    rewrite <- Hl in Hne.
    destruct (a_t arrays) as [|t0 ts] eqn:Ht; [done|].
    apply (collect_drivers_keeps _ _ _ _ _ Hc).
    unfold record_driver. rewrite Ht. cbn. rewrite lookup_insert_eq. eauto.
Qed.

(** A successful load, stage by stage. *)
Lemma load_ok_frames (s : Session) (p p' : Processor) (sm : Summary) :
  load_and_process (Fetched s) p = (Ok sm, p') →
  ∃ c t_min t_max,
    collect_drivers s (drivers s) collected_init = Ok c
    ∧ global_t_min c = Some t_min ∧ global_t_max c = Some t_max
    ∧ session p' = Loaded s
    ∧ track_coords p' = extracted_track s
    ∧ length (frames p') = Num.arange_len t_min t_max (1 / inject_Z FPS)
    ∧ ∀ k f, frames p' !! k = Some f →
        let t := (t_min + inject_Z (Z.of_nat k) * (1 / inject_Z FPS))%Q in
        f_t f = Num.py_round (t - t_min) 3
        ∧ f_drivers f = driver_at (extracted_track s) t <$> all_data c
        ∧ f_weather f = match weather_data s with
                        | None | Some [] => None
                        | Some w => weather_at w t
                        end.
Proof.
  rewrite load_fetched_session. cbv zeta.
  destruct (process_frames s FPS _) as [[[]|e] p2] eqn:Hp; cbn [fst snd]; [|done].
  destruct (session_total_laps s) as [n|]; [|done].
  intros [= <- <-].
  apply process_frames_ok in Hp
    as (c & dt & t_min & t_max & Hc & Hdt & Hmin & Hmax & _ & _ & Htc & Hlen & Hfr).
  rewrite frame_dt_FPS in Hdt. injection Hdt as <-.
  exists c, t_min, t_max. split_and!; try done.
Qed.

(** X4. After a successful load all frames hold the same drivers: a code is
    a key of a frame's driver map exactly when some driver listed in the
    session has that code and at least one telemetry sample. *)
Theorem frame_drivers_exact (s : Session) (p p' : Processor) (sm : Summary)
    (f : Frame) (code : string) :
  load_and_process (Fetched s) p = (Ok sm, p') → f ∈ frames p' →
  is_Some (f_drivers f !! code)
  ↔ ∃ d, d ∈ drivers s ∧ get_driver s d = code ∧ stream_times s d ≠ [].
Proof.
  intros Hload Hf.
  apply load_ok_frames in Hload as (c & t_min & t_max & Hc & _ & _ & _ & _ & _ & Hfr).
  apply list_elem_of_lookup in Hf as [k Hk]. apply Hfr in Hk as (_ & -> & _).
  rewrite lookup_fmap, fmap_is_Some. split.
  - intros Hsome.
    destruct (collect_drivers_keys _ _ _ _ code Hc Hsome) as [Hin|?]; [|done].
    cbn in Hin. rewrite lookup_empty in Hin. by destruct Hin.
  - intros (d & Hd & <- & Hne). by eapply collect_drivers_records.
Qed.

Lemma frame_drivers_exact_witness :
  match frames Samples.loaded !! 0%nat with
  | Some f =>
      is_Some (f_drivers f !! "VER"%string)
      ↔ ∃ d, d ∈ drivers Samples.one_silent
             ∧ get_driver Samples.one_silent d = "VER"%string
             ∧ stream_times Samples.one_silent d ≠ []
  | None => True
  end.
Proof.
  destruct (frames Samples.loaded !! 0%nat) as [f|] eqn:Hf; [|exact I].
  apply (frame_drivers_exact Samples.one_silent init Samples.loaded
           (summary_of 1 Samples.loaded)).
  - vm_compute. reflexivity.
  - apply (list_elem_of_lookup_2 _ 0%nat). exact Hf.
Defined.

Lemma extend_arrays_from (L : list Lap) (arrays : Arrays) (lap : Lap)
    (tel : list TelRow) :
  aligned arrays → from_laps L arrays → lap ∈ L →
  from_laps L (extend_arrays arrays lap tel).
Proof.
  intros Hal Hfrom Hlap i n c. cbn [extend_arrays a_lap a_tyre].
  assert (Hlen : length (a_lap arrays) = length (a_tyre arrays)).
  { unfold aligned in Hal. lia. }
  destruct (decide (i < length (a_lap arrays))%nat) as [Hlt|Hge].
  - rewrite !lookup_app_l by lia. apply Hfrom.
  - rewrite !lookup_app_r by lia. intros Hn Hc.
    apply lookup_replicate in Hn as [-> _]. apply lookup_replicate in Hc as [-> _].
    eauto.
Qed.

Lemma collect_laps_from (L ls : list Lap) (arrays arrays' : Arrays) :
  collect_laps ls arrays = Ok arrays' →
  aligned arrays → from_laps L arrays → (∀ lap, lap ∈ ls → lap ∈ L) →
  from_laps L arrays'.
Proof.
  revert arrays. induction ls as [|l ls IH]; intros arrays H Hal Hfrom Hsub.
  - cbn in H. by simplify_eq.
  - cbn [collect_laps] in H.
    assert (Hrest : ∀ lap, lap ∈ ls → lap ∈ L).
    { intros lap Hl. by apply Hsub, list_elem_of_further. }
    destruct (get_telemetry l) as [[|r tel]|e]; [| |done].
    + by apply (IH arrays).
    + apply (IH _ H); [by apply extend_arrays_aligned| |done].
      apply extend_arrays_from; [done|done|]. apply Hsub, list_elem_of_here.
Qed.

(** Every stream kept in [all_data] under a code was read from the laps of
    one driver number with that code. *)
Lemma collect_drivers_from (s : Session) (ds : list string) (c c' : Collected) :
  collect_drivers s ds c = Ok c' →
  (∀ code data, all_data c !! code = Some data →
     ∃ d, get_driver s d = code ∧ from_laps (pick_drivers s d) data) →
  ∀ code data, all_data c' !! code = Some data →
     ∃ d, get_driver s d = code ∧ from_laps (pick_drivers s d) data.
Proof.
  revert c. induction ds as [|d ds IH]; intros c Hc Hall.
  - cbn in Hc. by simplify_eq.
  - cbn [collect_drivers] in Hc.
    destruct (pick_drivers s d) as [|l ls] eqn:Hp; [by apply (IH c)|].
    destruct (collect_laps (l :: ls) empty_arrays) as [arrays|] eqn:Hl; [|done].
    destruct (a_t arrays) as [|t0 ts] eqn:Ht; [by apply (IH c)|].
    apply (IH _ Hc). intros code data. unfold record_driver. rewrite Ht. cbn.
    destruct (decide (get_driver s d = code)) as [Heq|Hne].
    + subst code. rewrite lookup_insert_eq. intros [= <-]. exists d.
      split; [done|]. rewrite Hp.
      apply (collect_laps_from _ _ _ _ Hl); [unfold aligned; by cbn| |done].
      intros i n c0 Hn. done.
    + rewrite lookup_insert_ne by done. apply Hall.
Qed.

(** X5. After a successful load, the [lap] and [tyre] of every driver
    snapshot are the lap number and the compound of one and the same lap of
    the session, driven by a driver with the snapshot's code: the
    ['UNKNOWN'] fallback of the tyre is never what fills it. *)
Theorem snapshot_lap_and_tyre (s : Session) (p p' : Processor) (sm : Summary)
    (f : Frame) (code : string) (snap : DriverSnapshot) :
  load_and_process (Fetched s) p = (Ok sm, p') → f ∈ frames p' →
  f_drivers f !! code = Some snap →
  ∃ lap, lap ∈ laps s
         ∧ get_driver s (DriverNumber lap) = code
         ∧ ds_lap snap = LapNumber lap
         ∧ ds_tyre snap = Compound lap.
Proof.
  intros Hload Hf Hsnap.
  apply load_ok_frames in Hload as (c & t_min & t_max & Hc & _ & _ & _ & _ & _ & Hfr).
  apply list_elem_of_lookup in Hf as [k Hk]. apply Hfr in Hk as (_ & Hd & _).
  rewrite Hd, lookup_fmap in Hsnap.
  apply fmap_Some in Hsnap as (data & Hdata & ->).
  destruct (collect_drivers_aligned _ _ _ _ Hc) with (code := code) (data := data)
    as (Hal & _ & Hidx); [|done|].
  { intros ? ?. cbn. by rewrite lookup_empty. }
  destruct (collect_drivers_from _ _ _ _ Hc) with (code := code) (data := data)
    as (d & Hcode & Hfrom); [|done|].
  { intros ? ?. cbn. by rewrite lookup_empty. }
  unfold driver_at, snapshot. cbn [ds_lap ds_tyre].
  set (idx := Num.lookup_index (a_t data) _).
  assert (Hlt : (idx < length (a_t data))%nat) by apply Hidx.
  assert (Hlap : (idx < length (a_lap data))%nat) by (unfold aligned in Hal; lia).
  assert (Htyre : (idx < length (a_tyre data))%nat) by (unfold aligned in Hal; lia).
  destruct (lookup_lt_is_Some_2 _ _ Hlap) as [n Hn].
  destruct (lookup_lt_is_Some_2 _ _ Htyre) as [c0 Hc0].
  destruct (Hfrom idx n c0 Hn Hc0) as (lap & Hin & <- & <-).
  apply list_elem_of_filter in Hin as [Hnum Hin].
  exists lap. split_and!; [done|by rewrite Hnum| |].
  - by rewrite nth_lookup, Hn.
  - rewrite (proj2 (Nat.ltb_lt _ _) Htyre). by rewrite nth_lookup, Hc0.
Qed.

Lemma snapshot_lap_and_tyre_witness :
  match frames Samples.loaded !! 1%nat ≫= λ f, f_drivers f !! "VER"%string with
  | Some snap =>
      ∃ lap, lap ∈ laps Samples.one_silent
             ∧ get_driver Samples.one_silent (DriverNumber lap) = "VER"%string
             ∧ ds_lap snap = LapNumber lap
             ∧ ds_tyre snap = Compound lap
  | None => True
  end.
Proof.
  destruct (frames Samples.loaded !! 1%nat) as [f|] eqn:Hf; [|exact I].
  cbn [mbind option_bind].
  destruct (f_drivers f !! "VER"%string) as [snap|] eqn:Hs; [|exact I].
  apply (snapshot_lap_and_tyre Samples.one_silent init Samples.loaded
           (summary_of 1 Samples.loaded) f "VER" snap).
  - vm_compute. reflexivity.
  - apply (list_elem_of_lookup_2 _ 1%nat). exact Hf.
  - exact Hs.
Defined.




Section Steps.
Local Open Scope Q_scope.





(** X8. On timestamps in non-decreasing order the resolved sample index
    never goes back as the time advances: a later timeline step reads the
    same or a later sample of the stream. *)
Theorem lookup_index_monotone (ts : list Q) (t t' : Q) :
  Sorted Qle ts → t <= t' →
  (Num.lookup_index ts t ≤ Num.lookup_index ts t')%nat.
Proof.
  intros Hs Hle.
  destruct (searchsorted_spec ts t Hs) as (Hlen & Hbelow & Habove).
  destruct (searchsorted_spec ts t' Hs) as (Hlen' & Hbelow' & Habove').
  assert (H : (Num.searchsorted ts t ≤ Num.searchsorted ts t')%nat).
  { destruct (decide (Num.searchsorted ts t ≤ Num.searchsorted ts t')%nat)
      as [?|Hgt]; [done|]. exfalso.
    destruct (lookup_lt_is_Some_2 ts (Num.searchsorted ts t')) as [v Hv]; [lia|].
    assert (H1 : v < t) by (apply (Hbelow (Num.searchsorted ts t')); [lia|done]).
    assert (H2 : t' <= v) by (apply (Habove' (Num.searchsorted ts t')); [lia|done]).
    lra. }
  unfold Num.lookup_index. lia.
Qed.

Lemma lookup_index_monotone_witness :
  (Num.lookup_index [0; 1 # 10]%Q (1 # 25)%Q
   ≤ Num.lookup_index [0; 1 # 10]%Q (2 # 25)%Q)%nat.
Proof.
  apply lookup_index_monotone.
  - repeat constructor. cbv. discriminate.
  - cbv. discriminate.
Defined.

End Steps.

(** ** The colour table *)

Section Colours.
Local Open Scope Z_scope.








End Colours.

(** ** The track dictionary *)

Section TrackShape.
Local Open Scope Q_scope.

Lemma rotated_lengths (tel : list TelRow) (info : option Rotation) :
  length (rotated tel info).1 = length tel ∧ length (rotated tel info).2 = length tel.
Proof.
  unfold rotated. destruct info as [r|]; [destruct (Num.nonzero _)|];
    cbn; by rewrite !length_map.
Qed.

(** An array whose least and greatest elements agree is constant. *)
Lemma np_extent_zero (vs : list Q) (lo hi : Q) :
  Num.np_min vs = Some lo → Num.np_max vs = Some hi →
  (hi - lo == 0 ↔ ∀ u v, u ∈ vs → v ∈ vs → u == v).
Proof.
  intros Hlo Hhi.
  destruct (np_min_spec _ _ Hlo) as [Hlo_in Hlb].
  destruct (np_max_spec _ _ Hhi) as [Hhi_in Hub].
  split.
  - intros E u v Hu Hv.
    pose proof (Hlb u Hu). pose proof (Hub u Hu).
    pose proof (Hlb v Hv). pose proof (Hub v Hv).
    apply Qle_antisym; lra.
  - intros Hall. rewrite (Hall hi lo Hhi_in Hlo_in). ring.
Qed.

(** X10. The track dictionary is the fallback [{'x': [], 'y': []}] exactly
    when the fastest-lap telemetry or the circuit information cannot be
    fetched or the telemetry has no row. Otherwise its three arrays have one
    entry per telemetry row, the offsets are the least rotated coordinates,
    and the scale is not finite exactly when all rotated points coincide, in
    which case no coordinate of the track is finite; with a finite scale all
    of them are. *)
Theorem track_shape (s : Session) :
  match extracted_track s with
  | TrackEmpty =>
      is_ok (fastest_lap_telemetry s) = false
      ∨ is_ok (circuit_info s) = false
      ∨ fastest_lap_telemetry s = Ok []
  | TrackGeometry x y distance scale offset_x offset_y =>
      ∃ tel info,
        fastest_lap_telemetry s = Ok tel ∧ circuit_info s = Ok info
        ∧ tel ≠ []
        ∧ length x = length tel ∧ length y = length tel
        ∧ distance = map Distance tel
        ∧ Num.np_min (rotated tel info).1 = Some offset_x
        ∧ Num.np_min (rotated tel info).2 = Some offset_y
        ∧ (scale = None
           ↔ (∀ u v, u ∈ (rotated tel info).1 → v ∈ (rotated tel info).1 → u == v)
             ∧ (∀ u v, u ∈ (rotated tel info).2 → v ∈ (rotated tel info).2 → u == v))
        ∧ (∀ v, v ∈ x ++ y → is_Some v ↔ is_Some scale)
  end.
Proof.
  unfold extracted_track.
  destruct (fastest_lap_telemetry s) as [tel|]; [|by left].
  destruct (circuit_info s) as [info|]; [|right; by left].
  pose proof (rotated_lengths tel info) as [Hlx Hly].
  destruct (rotated tel info) as [xs ys] eqn:Hrot. cbn [fst snd] in *.
  destruct tel as [|row tel]; [by destruct xs, ys; cbn; eauto|].
  destruct xs as [|x0 xs]; [done|]. destruct ys as [|y0 ys]; [done|].
  destruct (Num.np_min (x0 :: xs)) as [x_min|] eqn:Hxmin; [|done].
  destruct (Num.np_max (x0 :: xs)) as [x_max|] eqn:Hxmax; [|done].
  destruct (Num.np_min (y0 :: ys)) as [y_min|] eqn:Hymin; [|done].
  destruct (Num.np_max (y0 :: ys)) as [y_max|] eqn:Hymax; [|done].
  cbv zeta. exists (row :: tel), info. rewrite Hrot. cbn [fst snd].
  rewrite !length_map.
  assert (Hw : 0 <= x_max - x_min).
  { destruct (np_min_spec _ _ Hxmin) as [_ Hlb].
    destruct (np_max_spec _ _ Hxmax) as [Hin _]. specialize (Hlb _ Hin). lra. }
  assert (Hh : 0 <= y_max - y_min).
  { destruct (np_min_spec _ _ Hymin) as [_ Hlb].
    destruct (np_max_spec _ _ Hymax) as [Hin _]. specialize (Hlb _ Hin). lra. }
  split_and!; try done.
  - rewrite <- (np_extent_zero _ _ _ Hxmin Hxmax),
            <- (np_extent_zero _ _ _ Hymin Hymax).
    unfold Num.np_div.
    pose proof (Q.le_max_l (x_max - x_min) (y_max - y_min)) as H1.
    pose proof (Q.le_max_r (x_max - x_min) (y_max - y_min)) as H2.
    destruct (Qeq_bool _ 0) eqn:E.
    + apply Qeq_bool_eq in E. split; [intros _|done]. split; lra.
    + apply Qeq_bool_neq in E. split; [done|]. intros [Ex Ey]. exfalso.
      apply E. destruct (Qmax_cases (x_max - x_min) (y_max - y_min))
        as [[-> _]|[-> _]]; done.
  - intros v Hv. unfold normalize in Hv.
    destruct (Num.np_div _ _) as [k|].
    + apply elem_of_app in Hv as [Hv|Hv];
        apply list_elem_of_fmap in Hv as (? & -> & _); split; eauto.
    + apply elem_of_app in Hv as [Hv|Hv];
        apply list_elem_of_fmap in Hv as (? & -> & _); split; intros [? ?]; done.
Qed.

(** X11. When the circuit has no rotation, a driver sample taken at the
    coordinates of a fastest-lap row is drawn where the track polyline has
    that row: the snapshot's [x] and [y] are the track's entries for the row,
    rounded to one decimal. *)
Theorem marker_on_track (s : Session) (tel : list TelRow)
    (x y : list (option Q)) (distance : list Q) (scale : option Q)
    (offset_x offset_y : Q) (data : Arrays) (idx j : nat) (row : TelRow) :
  extracted_track s = TrackGeometry x y distance scale offset_x offset_y →
  fastest_lap_telemetry s = Ok tel →
  (circuit_info s = Ok None
   ∨ ∃ r, circuit_info s = Ok (Some r) ∧ rotation r == 0) →
  tel !! j = Some row →
  nth idx (a_x data) 0 = X row → nth idx (a_y data) 0 = Y row →
  ∃ vx vy, x !! j = Some vx ∧ y !! j = Some vy
           ∧ ds_x (snapshot (extracted_track s) data idx) = round1_opt vx
           ∧ ds_y (snapshot (extracted_track s) data idx) = round1_opt vy.
Proof.
  intros Htrack Htel Hrot Hrow Hx Hy. rewrite Htrack.
  unfold snapshot. cbn [ds_x ds_y track_scale track_offset_x track_offset_y].
  rewrite Hx, Hy.
  unfold extracted_track in Htrack. rewrite Htel in Htrack.
  assert (Hraw : ∃ info, circuit_info s = Ok info
                         ∧ rotated tel info = (map X tel, map Y tel)).
  { destruct Hrot as [Hn|(r & Hr & Hz)].
    - exists None. done.
    - exists (Some r). split; [done|]. unfold rotated, Num.nonzero.
      by rewrite (Qeq_eq_bool _ _ Hz). }
  destruct Hraw as (info & Hinfo & Hraw). rewrite Hinfo, Hraw in Htrack.
  destruct (Num.np_min (map X tel)) as [x_min|]; [|done].
  destruct (Num.np_max (map X tel)) as [x_max|]; [|done].
  destruct (Num.np_min (map Y tel)) as [y_min|]; [|done].
  destruct (Num.np_max (map Y tel)) as [y_max|]; [|done].
  cbv zeta in Htrack. injection Htrack as <- <- _ <- <- <-.
  exists (normalize (X row) x_min
            (Num.np_div 800 (Qmax (x_max - x_min) (y_max - y_min)))),
         (normalize (Y row) y_min
            (Num.np_div 800 (Qmax (x_max - x_min) (y_max - y_min)))).
  rewrite !list_lookup_fmap, Hrow. done.
Qed.

Lemma marker_on_track_witness :
  let data := {| a_t := [0]; a_x := [50]; a_y := [0]; a_dist := [0];
                 a_speed := [0]; a_gear := [0%Z]; a_throttle := [0];
                 a_brake := [0]; a_drs := [0%Z]; a_lap := [1%Z];
                 a_tyre := ["SOFT"%string] |} in
  ∃ vx vy,
    ds_x (snapshot (extracted_track Samples.one_silent) data 0) = round1_opt vx
    ∧ ds_y (snapshot (extracted_track Samples.one_silent) data 0) = round1_opt vy.
Proof.
  intros data.
  destruct (extracted_track Samples.one_silent) as [x y d sc ox oy|] eqn:E.
  2:{ vm_compute in E. discriminate. }
  destruct (marker_on_track Samples.one_silent
              [Samples.row 0 0; Samples.row (1 # 10) 50] x y d sc ox oy
              data 0 1 (Samples.row (1 # 10) 50) E)
    as (vx & vy & _ & _ & Hx & Hy);
    [reflexivity|left; reflexivity|reflexivity|reflexivity|reflexivity|].
  rewrite E in Hx, Hy. exists vx, vy. split; [exact Hx|exact Hy].
Defined.

End TrackShape.

(** ** Tyre strategies *)





(** What the stint loop has found after the rows [seen]. *)
Lemma stint_loop_found (seen : list Lap) :
  let st := foldl stint_step
              {| stints := []; current_compound := None; stint_start := 1 |} seen in
  (∀ x, x ∈ stints st →
     compound x ≠ EmptyString
     ∧ ∃ lap, lap ∈ seen ∧ Compound lap = compound x ∧ LapNumber lap = start_lap x)
  ∧ (∀ c, current_compound st = Some c →
       ∃ lap, lap ∈ seen ∧ Compound lap = c ∧ LapNumber lap = stint_start st)
  ∧ (length (stints st) + (match current_compound st with Some _ => 1 | None => 0 end) ≤ length seen)%nat.
Proof.
  induction seen as [|lap seen IH] using rev_ind.
  - cbn. split_and!; [|done|lia]. intros x Hx. by apply elem_of_nil in Hx.
  - rewrite foldl_app. cbn [foldl]. cbv zeta in IH.
    set (st := foldl stint_step _ seen) in *.
    destruct IH as (Hst & Hcur & Hlen).
    assert (Hwiden : ∀ (P : Lap → Prop), (∃ l, l ∈ seen ∧ P l) →
                       ∃ l, l ∈ seen ++ [lap] ∧ P l).
    { intros P (l & Hl & HP). exists l. split; [|done].
      apply elem_of_app. by left. }
    rewrite length_app. cbn [length].
    unfold stint_step. destruct (differs _ _) eqn:Hdiff.
    + cbn [stints current_compound stint_start]. split_and!.
      * intros x Hx. unfold close_stint in Hx.
        destruct (current_compound st) as [c|] eqn:Hc.
        2:{ destruct (Hst x Hx) as [? ?]. split; [done|]. by apply Hwiden. }
        destruct (truthy (Some c)) eqn:Htr.
        2:{ destruct (Hst x Hx) as [? ?]. split; [done|]. by apply Hwiden. }
        apply elem_of_app in Hx as [Hx|Hx].
        { destruct (Hst x Hx) as [? ?]. split; [done|]. by apply Hwiden. }
        apply list_elem_of_singleton in Hx as ->. cbn.
        split; [by destruct c|].
        destruct (Hcur c eq_refl) as (l & Hl & ? & ?).
        apply Hwiden. eauto.
      * intros c [= <-]. exists lap. split; [|done].
        apply elem_of_app. right. by apply list_elem_of_singleton.
      * unfold close_stint. destruct (current_compound st) as [c|]; [|lia].
        destruct (truthy (Some c)); rewrite ?length_app; cbn [length]; lia.
    + split_and!.
      * intros x Hx. destruct (Hst x Hx) as [? ?]. split; [done|]. by apply Hwiden.
      * intros c Hc. apply Hwiden. by apply Hcur.
      * lia.
Qed.

(** X13. Whatever the rows of a driver are, every stint reported for them
    has a non-empty compound, and its compound and its [start_lap] are the
    compound and the lap number of one row; there are never more stints than
    rows. *)
Theorem stints_from_rows (ls : list Lap) :
  (∀ x, x ∈ driver_stints ls →
     compound x ≠ EmptyString
     ∧ ∃ lap, lap ∈ ls ∧ Compound lap = compound x ∧ LapNumber lap = start_lap x)
  ∧ (length (driver_stints ls) ≤ length ls)%nat.
Proof.
  pose proof (stint_loop_found ls) as H. cbv zeta in H.
  unfold driver_stints. cbv zeta.
  set (st := foldl stint_step _ ls) in *.
  destruct H as (Hst & Hcur & Hlen). unfold close_stint.
  destruct (current_compound st) as [c|] eqn:Hc; [|split; [done|lia]].
  destruct (truthy (Some c)) eqn:Htr; [|split; [done|lia]].
  split.
  - intros x Hx. apply elem_of_app in Hx as [Hx|Hx]; [by apply Hst|].
    apply list_elem_of_singleton in Hx as ->. cbn.
    split; [by destruct c|]. by apply Hcur.
  - rewrite length_app. cbn [length]. lia.
Qed.

(** ** Lap-time and sector views *)

Section Views.
Local Open Scope Q_scope.








Lemma sector_loop (picked : list LapTiming) (acc : Sectors) :
  let kept := filter (λ r, is_Some (Sector1Time r)) picked in
  let sc := foldl sector_step acc picked in
  sc_lap_numbers sc = sc_lap_numbers acc ++ map (λ r, LapNumber (timed r)) kept
  ∧ map Some (sector1 sc) = map Some (sector1 acc) ++ map Sector1Time kept
  ∧ sector2 sc = sector2 acc ++ map Sector2Time kept
  ∧ sector3 sc = sector3 acc ++ map Sector3Time kept.
Proof.
  revert acc. induction picked as [|r l IH]; intros acc.
  - cbn. by rewrite !app_nil_r.
  - cbn [foldl]. cbv zeta. rewrite filter_cons.
    unfold sector_step at 2 4 6 8.
    destruct (Sector1Time r) as [s1|] eqn:E.
    + rewrite decide_True by eauto.
      destruct (IH {| sc_lap_numbers := sc_lap_numbers acc ++ [LapNumber (timed r)];
                      sector1 := sector1 acc ++ [s1];
                      sector2 := sector2 acc ++ [Sector2Time r];
                      sector3 := sector3 acc ++ [Sector3Time r] |})
        as (H1 & H2 & H3 & H4).
      cbn [sc_lap_numbers sector1 sector2 sector3] in *.
      rewrite H1, H2, H3, H4, map_app. cbn [map]. rewrite E.
      by rewrite <- !app_assoc.
    + rewrite decide_False by (by intros [? ?]). apply IH.
Qed.

(** X15. [get_sector_analysis] keeps exactly the laps that have a sector 1
    time, in table order: its four lists have one entry per such lap, holding
    the lap number, the sector 1 time, and the sector 2 and 3 times of that
    lap ([None] where the lap has none). *)
Theorem sector_analysis_rows (picked : list LapTiming) :
  let kept := filter (λ r, is_Some (Sector1Time r)) picked in
  sc_lap_numbers (sector_analysis picked) = map (λ r, LapNumber (timed r)) kept
  ∧ map Some (sector1 (sector_analysis picked)) = map Sector1Time kept
  ∧ sector2 (sector_analysis picked) = map Sector2Time kept
  ∧ sector3 (sector_analysis picked) = map Sector3Time kept
  ∧ length (sector1 (sector_analysis picked)) = length kept
  ∧ (length kept ≤ length picked)%nat.
Proof.
  cbv zeta. unfold sector_analysis.
  destruct (sector_loop picked
              {| sc_lap_numbers := []; sector1 := []; sector2 := []; sector3 := [] |})
    as (H1 & H2 & H3 & H4).
  cbn [sc_lap_numbers sector1 sector2 sector3 map app] in *.
  split_and!; try done.
  - apply (f_equal length) in H2. by rewrite !length_map in H2.
  - apply length_filter.
Qed.

End Views.

(** ** Race schedule *)

Lemma prefix_spec (s1 s2 : string) :
  String.prefix s1 s2 = true ↔ ∃ post, s2 = s1 +:+ post.
Proof.
  revert s2. induction s1 as [|a s1 IH]; intros s2.
  - split; [intros _; by exists s2|by destruct s2].
  - destruct s2 as [|b s2]; cbn.
    + split; [done|]. by intros [post ?].
    + destruct (ascii_dec a b) as [->|Hne].
      * rewrite IH. split; intros [post H]; exists post.
        -- change (String b s2 = String b (s1 +:+ post)). by rewrite H.
        -- change (String b s2 = String b (s1 +:+ post)) in H. congruence.
      * split; [done|]. intros [post H].
        change (String b s2 = String a (s1 +:+ post)) in H. congruence.
Qed.

(** [contains sub s] holds exactly when [sub] occurs somewhere in [s]. *)
Lemma contains_spec (sub s : string) :
  contains sub s = true ↔ ∃ pre post, s = pre +:+ sub +:+ post.
Proof.
  induction s as [|c s IH]; cbn [contains].
  - rewrite orb_false_r, prefix_spec. split.
    + intros [post H]. by exists EmptyString, post.
    + intros (pre & post & H). destruct pre; [by exists post|done].
  - rewrite orb_true_iff, prefix_spec, IH. split.
    + intros [[post H]|(pre & post & H)].
      * by exists EmptyString, post.
      * exists (String c pre), post.
        change (String c s = String c (pre +:+ sub +:+ post)). by rewrite H.
    + intros (pre & post & H). destruct pre as [|a pre].
      * left. by exists post.
      * right. exists pre, post.
        change (String c s = String a (pre +:+ sub +:+ post)) in H. congruence.
Qed.

Lemma schedule_loop (schedule : list Event) (acc : list Race) :
  foldl schedule_step acc schedule
  = acc ++ map (λ event,
                  {| rc_round := RoundNumber event;
                     rc_name := EventName event;
                     rc_country := Country event;
                     rc_date := EventDate event;
                     has_sprint :=
                       String.eqb (EventFormat event) "sprint_qualifying" |})
               (filter (λ event, contains "Testing" (EventName event) = false)
                       schedule).
Proof.
  revert acc. induction schedule as [|event l IH]; intros acc.
  - cbn. by rewrite app_nil_r.
  - cbn [foldl]. rewrite IH, filter_cons. unfold schedule_step.
    destruct (contains "Testing" (EventName event)) eqn:E.
    + by rewrite decide_False by done.
    + rewrite decide_True by done. cbn [map]. by rewrite <- app_assoc.
Qed.

(** X16. [get_race_schedule] lists no race whose name has ["Testing"]
    anywhere in it and lists every other event of the schedule, with its
    round, name, country and date, in schedule order; [has_sprint] is set
    exactly for the events whose format is ['sprint_qualifying']. *)
Theorem race_schedule_listing (schedule : list Event) :
  (∀ race, race ∈ race_schedule schedule →
     ¬ ∃ pre post, rc_name race = pre +:+ "Testing" +:+ post)
  ∧ (∀ event, event ∈ schedule →
       (¬ ∃ pre post, EventName event = pre +:+ "Testing" +:+ post) →
       ∃ race, race ∈ race_schedule schedule
               ∧ rc_round race = RoundNumber event
               ∧ rc_name race = EventName event
               ∧ rc_country race = Country event
               ∧ rc_date race = EventDate event
               ∧ (has_sprint race = true
                  ↔ EventFormat event = "sprint_qualifying"%string))
  ∧ map rc_round (race_schedule schedule) `sublist_of` map RoundNumber schedule.
Proof.
  unfold race_schedule. rewrite schedule_loop. cbn [app]. split_and!.
  - intros race Hr Hsub. apply list_elem_of_fmap in Hr as (event & -> & He).
    apply list_elem_of_filter in He as [Hno _]. cbn in Hsub.
    apply contains_spec in Hsub. congruence.
  - intros event He Hno. eexists. split.
    + apply list_elem_of_fmap. exists event. split; [reflexivity|].
      apply list_elem_of_filter. split; [|done].
      destruct (contains "Testing" (EventName event)) eqn:E; [|done].
      apply contains_spec in E. done.
    + cbn. split_and!; try done. apply String.eqb_eq.
  - rewrite map_map. cbn.
    change (map (λ x, RoundNumber x)) with (fmap (M := list) RoundNumber).
    apply fmap_sublist, sublist_filter.
Qed.

(** ** Telemetry of one lap *)

Lemma telemetry_of_lengths (lap_data : LapTiming) (t : DriverTelemetry) :
  telemetry_of lap_data = Telemetry t →
  dt_compound t = Compound (timed lap_data)
  ∧ dt_lap_time t = LapTime lap_data
  ∧ length (dt_speed t) = length (dt_distance t)
  ∧ length (dt_throttle t) = length (dt_distance t)
  ∧ length (dt_brake t) = length (dt_distance t)
  ∧ length (dt_gear t) = length (dt_distance t)
  ∧ length (dt_drs t) = length (dt_distance t).
Proof.
  unfold telemetry_of. destruct (get_telemetry (timed lap_data)) as [tel|]; [|done].
  intros [= <-]. cbn. by rewrite !length_map.
Qed.

(** X17. In [get_driver_telemetry] a lap argument of 0 is treated like no
    argument at all: the fastest lap is used. For any other lap number the
    fastest lap is not consulted; when no lap of the driver has that number
    the call ends with [IndexError]; and when it returns, the six series have
    the same length and the compound and lap time are those of a lap of the
    driver with that number. *)
Theorem driver_telemetry_lap (picked : list LapTiming) (quickest : result LapTiming)
    (n : Z) :
  get_driver_telemetry picked quickest (Some 0%Z)
  = get_driver_telemetry picked quickest None
  ∧ (n ≠ 0%Z →
     (∀ other, get_driver_telemetry picked other (Some n)
               = get_driver_telemetry picked quickest (Some n))
     ∧ ((∀ r, r ∈ picked → LapNumber (timed r) ≠ n) →
        get_driver_telemetry picked quickest (Some n) = IndexError)
     ∧ ∀ t, get_driver_telemetry picked quickest (Some n) = Telemetry t →
         ∃ r, r ∈ picked ∧ LapNumber (timed r) = n
              ∧ dt_compound t = Compound (timed r)
              ∧ dt_lap_time t = LapTime r
              ∧ length (dt_speed t) = length (dt_distance t)
              ∧ length (dt_throttle t) = length (dt_distance t)
              ∧ length (dt_brake t) = length (dt_distance t)
              ∧ length (dt_gear t) = length (dt_distance t)
              ∧ length (dt_drs t) = length (dt_distance t)).
Proof.
  split; [done|]. intros Hn. unfold get_driver_telemetry. cbv zeta.
  rewrite (proj2 (Z.eqb_neq n 0) Hn). split_and!.
  - done.
  - intros Hnone.
    destruct (filter (λ r, LapNumber (timed r) = n) picked) as [|r l] eqn:E; [done|].
    assert (Hr : r ∈ filter (λ r, LapNumber (timed r) = n) picked)
      by (rewrite E; apply list_elem_of_here).
    apply list_elem_of_filter in Hr as [? Hr]. by destruct (Hnone r Hr).
  - intros t Ht.
    destruct (filter (λ r, LapNumber (timed r) = n) picked) as [|r l] eqn:E; [done|].
    assert (Hr : r ∈ filter (λ r, LapNumber (timed r) = n) picked)
      by (rewrite E; apply list_elem_of_here).
    apply list_elem_of_filter in Hr as [? Hr].
    exists r. split; [done|]. split; [done|]. by apply telemetry_of_lengths.
Qed.

(** ** The frames route *)

(** X18. The [/api/frames] route answers with an error exactly when one of
    its arguments is present and is not an integer. Without arguments it
    answers with the window 0 to 100 and the first hundred frames; with a
    [start ≥ 0] alone it answers with the window [start] to [start + 100] and
    the at most hundred frames from position [start] on. *)
Theorem frames_route_default (p : Processor) (start_arg end_arg : QueryInt) :
  ((∃ e, frames_route p start_arg end_arg = FramesError e)
   ↔ (∃ e, start_arg = Present (Raise e)) ∨ (∃ e, end_arg = Present (Raise e)))
  ∧ frames_route p Absent Absent = FramesOk 0 100 (take 100 (frames p))
  ∧ ∀ start, (0 ≤ start)%Z →
      frames_route p (Present (Ok start)) Absent
      = FramesOk start (start + 100)
          (take 100 (drop (Z.to_nat start) (frames p))).
Proof.
  split_and!.
  - unfold frames_route, query_int.
    destruct start_arg as [|[s|e]], end_arg as [|[t|e']]; cbn;
      split; try (intros [? ?]; done); try (intros [[? ?]|[? ?]]; done); eauto.
  - unfold frames_route. cbn [query_int].
    rewrite get_frames_take_drop by lia. done.
  - intros start Hs. unfold frames_route. cbn [query_int].
    rewrite get_frames_take_drop by lia. do 2 f_equal. lia.
Qed.
